(** * utils/interface.py: the notification fan-out

    A shallow embedding of the notification part of [utils/interface.py]
    (the event type, [safeformat], [NotificationHandler],
    [QueuedNotificationHandler] with its worker thread, and
    [NotificationManager]) together with the properties its
    specification states about it.

    Python values are modelled as follows: [str] is [string], a [dict]
    or keyword mapping is a [gmap], a [set] is a [gset], a [list] is a
    [list]; objects that are shared by reference (the default whitelist
    and the default formats) live in a store and are named by
    locations. *)

From stdpp Require Import gmap strings list fin_maps pretty.
From Stdlib Require Import Ascii String NArith.

Local Open Scope string_scope.

(** ** Exceptions and outcomes *)

(** The exception classes the modelled code can raise; [OtherError]
    stands for whatever a user-written sink raises. *)
Inductive pyexn :=
| ValueError
| KeyError
| TypeError
| IndexError
| OtherError (cls : string).

(** The outcome of running a piece of Python: it returns a value, it
    raises, or it leaves the fragment of the language this
    development gives a meaning to (see [output_markup]). *)
Inductive outcome (A : Type) :=
| Ok (a : A)
| Raise (e : pyexn)
| Unmodelled.
Arguments Ok {A} a.
Arguments Raise {A} e.
Arguments Unmodelled {A}.

Definition outcome_bind {A B} (o : outcome A) (k : A → outcome B) : outcome B :=
  match o with
  | Ok a => k a
  | Raise e => Raise e
  | Unmodelled => Unmodelled
  end.

Definition outcome_map {A B} (f : A → B) (o : outcome A) : outcome B :=
  outcome_bind o (λ a, Ok (f a)).

(** ** [str.format_map]

    [safeformat] is a call of the built-in [str.format_map] on a
    [dict] subclass; the functions of this section follow CPython's
    implementation of the method ([MarkupIterator_next], [parse_field],
    [field_name_split], [FieldNameIterator_next], [output_markup] and
    [build_string]) for mappings whose values are [str].  A [string]
    stands for a [str] whose characters all lie below U+0100, one
    [ascii] for each character; among these the decimal digits are
    the ten ASCII digits.  Three things have no meaning here and give
    [Unmodelled]: the attributes of a [str], the conversions [!r] and
    [!a], and a format specification that is not empty. *)
Module Format.

(** [Py_UNICODE_TODECIMAL] finds a decimal digit: below U+0100 these
    are the characters [0] to [9] and no others. *)
Definition is_digit (c : ascii) : bool :=
  let n := N_of_ascii c in (48 <=? n)%N && (n <=? 57)%N.

Definition digit_val (c : ascii) : N := (N_of_ascii c - 48)%N.

(** Largest value of a [Py_ssize_t] (64-bit build). *)
Definition PY_SSIZE_T_MAX : N := 9223372036854775807%N.

(** The result of [get_integer]: the text is not a number (CPython's
    [-1] without an error), a number, or too many digits (an error). *)
Inductive integer_result :=
| NotInteger
| Integer (n : N)
| TooManyDigits.

Fixpoint get_integer_from (acc : N) (s : string) : integer_result :=
  match s with
  | "" => Integer acc
  | String c r =>
      if is_digit c then
        if ((PY_SSIZE_T_MAX - digit_val c) / 10 <? acc)%N then TooManyDigits
        else get_integer_from (acc * 10 + digit_val c)%N r
      else NotInteger
  end.

Definition get_integer (s : string) : integer_result :=
  match s with
  | "" => NotInteger
  | _ => get_integer_from 0%N s
  end.

(** [field_name_split]: the part of a field name before the first
    ['.'] or ['['], and what follows it. *)
Fixpoint field_name_split (s : string) : string * string :=
  match s with
  | "" => ("", "")
  | String c r =>
      if (c =? ".")%char || (c =? "[")%char then ("", s)
      else let '(first, rest) := field_name_split r in (String c first, rest)
  end.

(** [str.__getitem__] with an integer index that is not negative;
    the index counts characters, one [ascii] each. *)
Fixpoint str_getitem (s : string) (i : N) : outcome string :=
  match s with
  | "" => Raise IndexError
  | String c r => if (i =? 0)%N then Ok (String c "") else str_getitem r (N.pred i)
  end.

(** Where [FieldNameIterator_next] stands in the rest of a field name:
    at the start of an accessor, inside the name of an attribute (of
    which [seen] says whether it has a character yet), or inside the
    brackets of an item, of which [item] is the text read so far. *)
Inductive accessor_mode :=
| AtAccessor
| InAttribute (seen : bool)
| InItem (item : string).

(** [getitem_sequence] / [getitem_str] on a [str] object: an integer
    indexes the string, any other key is a [TypeError]. *)
Definition str_item (obj item : string) : outcome string :=
  match item with
  | "" => Raise ValueError
  | _ =>
      match get_integer item with
      | TooManyDigits => Raise ValueError
      | Integer n => str_getitem obj n
      | NotInteger => Raise TypeError
      end
  end.

(** The loop of [get_field_object] over the rest of a field name,
    applied to a [str] object.  An attribute whose name is empty, a
    missing [']'] and a character other than ['.'] or ['['] after a
    [']'] are errors of the format string; what an attribute of a
    [str] formats to is not modelled. *)
Fixpoint apply_accessors (mode : accessor_mode) (obj : string) (s : string)
    : outcome string :=
  match mode, s with
  | AtAccessor, "" => Ok obj
  | AtAccessor, String c r =>
      if (c =? ".")%char then apply_accessors (InAttribute false) obj r
      else if (c =? "[")%char then apply_accessors (InItem "") obj r
      else Raise ValueError
  | InAttribute seen, "" => if seen then Unmodelled else Raise ValueError
  | InAttribute seen, String c r =>
      if (c =? ".")%char || (c =? "[")%char then
        if seen then Unmodelled else Raise ValueError
      else apply_accessors (InAttribute true) obj r
  | InItem _, "" => Raise ValueError
  | InItem item, String c r =>
      if (c =? "]")%char then
        outcome_bind (str_item obj item) (λ o, apply_accessors AtAccessor o r)
      else apply_accessors (InItem (item +:+ String c "")) obj r
  end.

(** [get_field_object] under [format_map]: there are no positional
    arguments, so an empty or numeric first part is an error; any
    other first part is looked up in the mapping with [getitem]. *)
Definition get_field_object (getitem : string → outcome string)
    (field_name : string) : outcome string :=
  let '(first, rest) := field_name_split field_name in
  match get_integer first with
  | NotInteger =>
      match first with
      | "" => Raise ValueError
      | _ => outcome_bind (getitem first) (λ obj, apply_accessors AtAccessor obj rest)
      end
  | Integer _ | TooManyDigits => Raise ValueError
  end.

(** [do_conversion] on a [str] object: [!s] is the identity, [!r] and
    [!a] are not modelled, any other character is an error. *)
Definition do_conversion (obj : string) (conversion : ascii) : outcome string :=
  if (conversion =? "s")%char then Ok obj
  else if (conversion =? "r")%char || (conversion =? "a")%char then Unmodelled
  else Raise ValueError.

(** [output_markup]: the object of the field, converted, then
    formatted.  With an empty format specification a [str] is written
    as it is; the format specification language is not modelled. *)
Definition output_markup (getitem : string → outcome string)
    (field_name : string) (conversion : ascii) (format_spec : string)
    : outcome string :=
  outcome_bind (get_field_object getitem field_name) (λ fieldobj,
  outcome_bind (if (conversion =? zero)%char then Ok fieldobj
         else do_conversion fieldobj conversion) (λ fieldobj,
  match format_spec with
  | "" => Ok fieldobj
  | _ => Unmodelled
  end)).

(** Where the scan of the format string stands: in literal text
    ([MarkupIterator_next]), in a field name with the characters read
    so far and whether a ['['] is open, just after ['!'], after the
    conversion character, or in the format specification with the
    number of open braces ([parse_field]). *)
Inductive markup_mode :=
| InLiteral
| InFieldName (field_name : string) (bracket : bool)
| AtConversion (field_name : string)
| AfterConversion (field_name : string) (conversion : ascii)
| InFormatSpec (field_name : string) (conversion : ascii)
               (format_spec : string) (count : nat).

Definition snoc (s : string) (c : ascii) : string := s +:+ String c "".

(** [build_string]: literal text is copied, [{{] and [}}] give one
    brace, a field is replaced by [output_markup]; the first error met
    from left to right is the result. *)
Fixpoint build_string (getitem : string → outcome string) (mode : markup_mode)
    (s : string) : outcome string :=
  let field_done field_name conversion format_spec r :=
    outcome_bind (output_markup getitem field_name conversion format_spec) (λ v,
    outcome_map (String.append v) (build_string getitem InLiteral r)) in
  match mode, s with
  | InLiteral, "" => Ok ""
  | InLiteral, String c r =>
      if (c =? "{")%char then
        match r with
        | "" => Raise ValueError
        | String d r' =>
            if (d =? "{")%char then
              outcome_map (String "{") (build_string getitem InLiteral r')
            else build_string getitem (InFieldName "" false) r
        end
      else if (c =? "}")%char then
        match r with
        | "" => Raise ValueError
        | String d r' =>
            if (d =? "}")%char then
              outcome_map (String "}") (build_string getitem InLiteral r')
            else Raise ValueError
        end
      else outcome_map (String c) (build_string getitem InLiteral r)
  | InFieldName _ _, "" => Raise ValueError
  | InFieldName name true, String c r =>
      build_string getitem (InFieldName (snoc name c) (negb (c =? "]")%char)) r
  | InFieldName name false, String c r =>
      if (c =? "{")%char then Raise ValueError
      else if (c =? "[")%char then
        build_string getitem (InFieldName (snoc name c) true) r
      else if (c =? "}")%char then field_done name zero "" r
      else if (c =? ":")%char then
        build_string getitem (InFormatSpec name zero "" 1) r
      else if (c =? "!")%char then build_string getitem (AtConversion name) r
      else build_string getitem (InFieldName (snoc name c) false) r
  | AtConversion _, "" => Raise ValueError
  | AtConversion name, String c r =>
      build_string getitem (AfterConversion name c) r
  | AfterConversion _ _, "" => Raise ValueError
  | AfterConversion name conv, String c r =>
      if (c =? "}")%char then field_done name conv "" r
      else if (c =? ":")%char then
        build_string getitem (InFormatSpec name conv "" 1) r
      else Raise ValueError
  | InFormatSpec _ _ _ _, "" => Raise ValueError
  | InFormatSpec name conv spec count, String c r =>
      if (c =? "{")%char then
        build_string getitem (InFormatSpec name conv (snoc spec c) (S count)) r
      else if (c =? "}")%char then
        match count with
        | 0 | 1 => field_done name conv spec r
        | S count' =>
            build_string getitem (InFormatSpec name conv (snoc spec c) count') r
        end
      else build_string getitem (InFormatSpec name conv (snoc spec c) count) r
  end.

(** [str.format_map(mapping)]. *)
Definition format_map (str : string) (getitem : string → outcome string)
    : outcome string :=
  build_string getitem InLiteral str.

End Format.

(** ** [safeformat] *)

(** [SafeDict.__missing__]: a key that is absent maps to itself
    between braces. *)
Definition SafeDict__missing__ (key : string) : string :=
  "{" +:+ key +:+ "}".

(** Subscription of a [SafeDict] built from [kwargs]. *)
Definition SafeDict__getitem__ (kwargs : gmap string string) (key : string)
    : outcome string :=
  match kwargs !! key with
  | Some v => Ok v
  | None => Ok (SafeDict__missing__ key)
  end.

(** [safeformat(str, **kwargs)].  The first parameter is named [str]:
    a keyword argument of that name is refused by the call itself
    with a [TypeError] (two values for one parameter). *)
Definition safeformat (str : string) (kwargs : gmap string string)
    : outcome string :=
  match kwargs !! "str" with
  | Some _ => Raise TypeError
  | None => Format.format_map str (SafeDict__getitem__ kwargs)
  end.

(** ** Events *)

Inductive EventType :=
| MESSAGE
| START
| REGISTERED
| SHUTDOWN
| CRASH
| PLAYER_JOIN
| PLAYER_LEAVE
| COMMAND.

(** The [value] of a member of the enumeration. *)
Definition value (e : EventType) : string :=
  match e with
  | MESSAGE => "message"
  | START => "start"
  | REGISTERED => "registered"
  | SHUTDOWN => "shutdown"
  | CRASH => "crash"
  | PLAYER_JOIN => "player_join"
  | PLAYER_LEAVE => "player_leave"
  | COMMAND => "command"
  end.

(** [[e for e in EventType]]: the members in definition order. *)
Definition EventType_members : list EventType :=
  [MESSAGE; START; REGISTERED; SHUTDOWN; CRASH; PLAYER_JOIN; PLAYER_LEAVE; COMMAND].

#[global] Instance EventType_eq_dec : EqDecision EventType.
Proof. solve_decision. Defined.

Definition EventType_index (e : EventType) : nat :=
  match e with
  | MESSAGE => 0 | START => 1 | REGISTERED => 2 | SHUTDOWN => 3
  | CRASH => 4 | PLAYER_JOIN => 5 | PLAYER_LEAVE => 6 | COMMAND => 7
  end.

#[global] Instance EventType_countable : Countable EventType.
Proof.
  apply (inj_countable' EventType_index (λ n, default MESSAGE (EventType_members !! n))).
  intros []; reflexivity.
Defined.

(** ** The store

    Sets, dicts and worker threads are objects that several owners
    may reference; the store maps their locations to their current
    contents.  [stdout] collects what [print] has written. *)

Definition loc := nat.

(** A queued notification: the arguments of one [add_event] call. *)
Definition Event : Type := EventType * string.

(** The data of a [NotificationThread]: its [Queue] (oldest item
    first) and its [threading.Event]. *)
Record NotificationThread := {
  event_queue : list Event;
  wakeup_event : bool
}.

Record Store := {
  set_objs : gmap loc (gset EventType);
  dict_objs : gmap loc (gmap EventType string);
  thread_objs : gmap loc NotificationThread;
  next_loc : loc;
  stdout : list string
}.

Definition empty_store : Store :=
  {| set_objs := ∅; dict_objs := ∅; thread_objs := ∅; next_loc := 0; stdout := [] |}.

Definition alloc_set (s : gset EventType) (st : Store) : loc * Store :=
  (next_loc st,
   {| set_objs := <[next_loc st := s]> (set_objs st); dict_objs := dict_objs st;
      thread_objs := thread_objs st; next_loc := S (next_loc st);
      stdout := stdout st |}).

Definition alloc_dict (d : gmap EventType string) (st : Store) : loc * Store :=
  (next_loc st,
   {| set_objs := set_objs st; dict_objs := <[next_loc st := d]> (dict_objs st);
      thread_objs := thread_objs st; next_loc := S (next_loc st);
      stdout := stdout st |}).

Definition alloc_thread (t : NotificationThread) (st : Store) : loc * Store :=
  (next_loc st,
   {| set_objs := set_objs st; dict_objs := dict_objs st;
      thread_objs := <[next_loc st := t]> (thread_objs st);
      next_loc := S (next_loc st); stdout := stdout st |}).

(** The set and the dict a location stands for. *)
Definition get_set (st : Store) (l : loc) : gset EventType := set_objs st !!! l.
Definition get_dict (st : Store) (l : loc) : gmap EventType string := dict_objs st !!! l.

(** [s.discard(k)] and [d[k] = v] on the objects at a location: the
    object is changed in place, for every owner of the reference. *)
Definition set_discard (l : loc) (k : EventType) (st : Store) : Store :=
  {| set_objs := <[l := get_set st l ∖ {[k]}]> (set_objs st);
     dict_objs := dict_objs st; thread_objs := thread_objs st;
     next_loc := next_loc st; stdout := stdout st |}.

Definition dict_setitem (l : loc) (k : EventType) (v : string) (st : Store) : Store :=
  {| set_objs := set_objs st;
     dict_objs := <[l := <[k := v]> (get_dict st l)]> (dict_objs st);
     thread_objs := thread_objs st; next_loc := next_loc st; stdout := stdout st |}.

(** [print(message)]. *)
Definition print (message : string) (st : Store) : Store :=
  {| set_objs := set_objs st; dict_objs := dict_objs st;
     thread_objs := thread_objs st; next_loc := next_loc st;
     stdout := stdout st ++ [message] |}.

(** ** Handlers *)

(** A sink: the method [_send_message] of a handler.  It acts on the
    store and returns or raises. *)
Definition Sink : Type := EventType → string → Store → outcome unit * Store.

(** A handler object: its three attributes and the [_send_message]
    its class gives it.  [whitelist] and [formats] are references. *)
Record NotificationHandler := {
  name : string;
  whitelist : loc;
  formats : loc;
  _send_message : Sink
}.

(** The calls a run makes, in order: the manager calling
    [send_event] on a handler, a handler calling its sink. *)
Inductive Call :=
| CallSendEvent (h : NotificationHandler) (event_type : EventType)
                (params : gmap string string)
| CallSendMessage (h : NotificationHandler) (event_type : EventType)
                  (message : string).

Record Machine := {
  store : Store;
  trace : list Call
}.

(** Computations: state passing over the machine, with an outcome. *)
Definition M (A : Type) : Type := Machine → outcome A * Machine.

#[global] Instance M_ret : MRet M := λ A a m, (Ok a, m).
#[global] Instance M_bind : MBind M := λ A B k c m,
  match c m with
  | (Ok a, m') => k a m'
  | (Raise e, m') => (Raise e, m')
  | (Unmodelled, m') => (Unmodelled, m')
  end.

Definition raise {A} (e : pyexn) : M A := λ m, (Raise e, m).

Definition lift {A} (o : outcome A) : M A := λ m, (o, m).

Definition get_store : M Store := λ m, (Ok (store m), m).

Definition record (c : Call) : M unit :=
  λ m, (Ok tt, {| store := store m; trace := trace m ++ [c] |}).

(** Run a sink on the store of the machine. *)
Definition run_sink (sink : Sink) (event_type : EventType) (message : string)
    : M unit :=
  λ m, let '(r, st) := sink event_type message (store m) in
       (r, {| store := st; trace := trace m |}).

(** The body of [NotificationHandler.send_event]. *)
Definition send_event_body (self : NotificationHandler) (event_type : EventType)
    (params : gmap string string) : M unit :=
  st ← get_store;
  if decide (event_type ∈ get_set st (whitelist self)) then
    let params := <["name" := name self]> params in
    match get_dict st (formats self) !! event_type with
    | None => raise KeyError
    | Some template =>
        message ← lift (safeformat template params);
        record (CallSendMessage self event_type message);;
        run_sink (_send_message self) event_type message
    end
  else mret tt.

(** The binding of the arguments of a call [send_event(event_type,
    **params)]: a keyword named [self] or [event_type] gives a
    second value to a parameter that has one already, and the call
    raises [TypeError] before the body runs. *)
Definition bind_keywords {A} (params : gmap string string) (body : M A) : M A :=
  match params !! "self", params !! "event_type" with
  | None, None => body
  | _, _ => raise TypeError
  end.

(** [NotificationHandler.send_event(event_type, **params)]. *)
Definition NotificationHandler_send_event (self : NotificationHandler)
    (event_type : EventType) (params : gmap string string) : M unit :=
  bind_keywords params (send_event_body self event_type params).

(** [NotificationHandler._send_message]: print the message. *)
Definition NotificationHandler__send_message : Sink :=
  λ _ message st, (Ok tt, print message st).

(** [Queue.put] and [threading.Event.set] on the data of a thread. *)
Definition queue_put (event : Event) (t : NotificationThread) : NotificationThread :=
  {| event_queue := event_queue t ++ [event]; wakeup_event := wakeup_event t |}.

Definition wakeup_set (t : NotificationThread) : NotificationThread :=
  {| event_queue := event_queue t; wakeup_event := true |}.

Definition wakeup_clear (t : NotificationThread) : NotificationThread :=
  {| event_queue := event_queue t; wakeup_event := false |}.

(** [NotificationThread.add_event]: put the pair on the queue, then
    set the wake-up flag. *)
Definition add_event (event_type : EventType) (message : string)
    (t : NotificationThread) : NotificationThread :=
  wakeup_set (queue_put (event_type, message) t).

(** [QueuedNotificationHandler._send_message]: hand the message to
    the thread object at [thread]. *)
Definition QueuedNotificationHandler__send_message (thread : loc) : Sink :=
  λ event_type message st,
    (Ok tt,
     {| set_objs := set_objs st; dict_objs := dict_objs st;
        thread_objs := alter (add_event event_type message) thread (thread_objs st);
        next_loc := next_loc st; stdout := stdout st |}).

(** ** The manager *)

Record NotificationManager := {
  handlers : list NotificationHandler
}.




(** A [for] loop over a list: the body runs on each element in
    order; an exception leaves the loop. *)
Fixpoint for_each {A} (l : list A) (body : A → M unit) : M unit :=
  match l with
  | [] => mret tt
  | x :: l' => body x;; for_each l' body
  end.

(** The loop of [NotificationManager.send_event]. *)
Definition send_event_loop (hs : list NotificationHandler) (event_type : EventType)
    (params : gmap string string) : M unit :=
  for_each hs
    (λ handler, record (CallSendEvent handler event_type params);;
                NotificationHandler_send_event handler event_type params).

(** [NotificationManager.send_event(event_type, **params)]: the
    arguments are bound as for a handler, then the loop runs. *)
Definition NotificationManager_send_event (self : NotificationManager)
    (event_type : EventType) (params : gmap string string) : M unit :=
  bind_keywords params (send_event_loop (handlers self) event_type params).

(** ** Module level objects and constructors *)

Definition DEFAULT_EVENT_FORMATS_items : list (EventType * string) :=
  [ (MESSAGE, "[{name}] {message}");
    (START, "[{name}] Server started!");
    (REGISTERED, "[{name}] Server registered with Playfab!");
    (SHUTDOWN, "[{name}] Server shutdown!");
    (CRASH, "[{name}] Server crashed!");
    (PLAYER_JOIN, "[{name}] Player '{player}' joined the game");
    (PLAYER_LEAVE, "[{name}] Player '{player}' left the game");
    (COMMAND, "[{name}] Command executed: {command}") ].

(** The default values of the parameters of an [__init__], computed
    when its [def] is executed and kept with the function. *)
Record Defaults := {
  default_name : string;
  default_event_whitelist : loc;
  default_event_formats : loc
}.

(** What executing the module binds: the global
    [DEFAULT_EVENT_FORMATS] and the defaults of the two [__init__]
    methods. *)
Record Globals := {
  DEFAULT_EVENT_FORMATS : loc;
  NotificationHandler__defaults__ : Defaults;
  QueuedNotificationHandler__defaults__ : Defaults
}.

(** Executing the module: the dict literal is built once; each [def]
    evaluates [set([e for e in EventType])] once, and reads the
    global for [event_formats]. *)
Definition exec_module (st : Store) : Globals * Store :=
  let '(fmts, st) := alloc_dict (list_to_map DEFAULT_EVENT_FORMATS_items) st in
  let '(wl, st) := alloc_set (list_to_set EventType_members) st in
  let '(qwl, st) := alloc_set (list_to_set EventType_members) st in
  ({| DEFAULT_EVENT_FORMATS := fmts;
      NotificationHandler__defaults__ :=
        {| default_name := "Server"; default_event_whitelist := wl;
           default_event_formats := fmts |};
      QueuedNotificationHandler__defaults__ :=
        {| default_name := "Server"; default_event_whitelist := qwl;
           default_event_formats := fmts |} |}, st).

(** [NotificationHandler(name, event_whitelist, event_formats)]; an
    argument that is left out is [None] and takes the default. *)
Definition NotificationHandler__init__ (g : Globals) (name : option string)
    (event_whitelist event_formats : option loc) : NotificationHandler :=
  let d := NotificationHandler__defaults__ g in
  {| name := default (default_name d) name;
     whitelist := default (default_event_whitelist d) event_whitelist;
     formats := default (default_event_formats d) event_formats;
     _send_message := NotificationHandler__send_message |}.

(** A subclass overrides [_send_message]: the same attributes, another
    sink. *)
Definition override_send_message (h : NotificationHandler) (sink : Sink)
    : NotificationHandler :=
  {| name := name h; whitelist := whitelist h; formats := formats h;
     _send_message := sink |}.

(** [QueuedNotificationHandler(name, event_whitelist, event_formats)]:
    the arguments, completed by this method's own defaults, go to the
    base class; then the thread object is created, with an empty
    queue and a cleared flag. *)
Definition QueuedNotificationHandler__init__ (g : Globals) (name : option string)
    (event_whitelist event_formats : option loc) (st : Store)
    : NotificationHandler * Store :=
  let d := QueuedNotificationHandler__defaults__ g in
  let base :=
    NotificationHandler__init__ g
      (Some (default (default_name d) name))
      (Some (default (default_event_whitelist d) event_whitelist))
      (Some (default (default_event_formats d) event_formats)) in
  let '(thread, st) :=
    alloc_thread {| event_queue := []; wakeup_event := false |} st in
  (override_send_message base (QueuedNotificationHandler__send_message thread), st).

(** [QueuedNotificationHandler._handle_message]: sleep, then print. *)
Definition QueuedNotificationHandler__handle_message : Sink :=
  λ _ message st, (Ok tt, print message st).

(** ** The worker thread

    One [NotificationThread] with its producers.  The producers run
    [add_event], whose two statements are separate steps; the worker
    runs [run], one step per statement.  [setters] counts the
    producers that have put their item and not yet set the flag. *)

(** Where the worker stands in [run]. *)
Inductive WorkerPc :=
| AtLoop                      (* about to test [event_queue.empty()] *)
| AtGet                       (* about to call [event_queue.get()] *)
| AtCall (event : Event)      (* about to call [callback] on the event *)
| InCallback (event : Event)  (* inside the callback *)
| AtWait                      (* inside [wakeup_event.wait(timeout=10)] *)
| AtClear                     (* about to call [wakeup_event.clear()] *)
| Terminated (e : pyexn).     (* [run] was left by an exception *)

Record System := {
  thread : NotificationThread;
  worker : WorkerPc;
  setters : nat;
  world : Store
}.

Inductive Label :=
| LPut (event : Event)
| LSet
| LEmpty (b : bool)
| LGet (event : Event)
| LBegin (event : Event)
| LReturn (event : Event)
| LRaise (event : Event) (e : pyexn)
| LWait
| LClear.

Definition initial (w : Store) : System :=
  {| thread := {| event_queue := []; wakeup_event := false |};
     worker := AtLoop; setters := 0; world := w |}.

Section Worker.

(** The callback given to the thread: [_handle_message] of the
    handler, possibly overridden by a subclass. *)
Variable callback : Sink.

(** One step of [run].  [get] blocks on an empty queue; [wait]
    returns when the flag is set or the timeout has passed, so it can
    always return; an exception of the callback ends [run]. *)
Definition worker_step (s : System) : option (Label * System) :=
  match worker s with
  | AtLoop =>
      match event_queue (thread s) with
      | [] => Some (LEmpty true,
                    {| thread := thread s; worker := AtWait;
                       setters := setters s; world := world s |})
      | _ :: _ => Some (LEmpty false,
                        {| thread := thread s; worker := AtGet;
                           setters := setters s; world := world s |})
      end
  | AtGet =>
      match event_queue (thread s) with
      | [] => None
      | event :: q =>
          Some (LGet event,
                {| thread := {| event_queue := q;
                                wakeup_event := wakeup_event (thread s) |};
                   worker := AtCall event; setters := setters s;
                   world := world s |})
      end
  | AtCall event =>
      Some (LBegin event,
            {| thread := thread s; worker := InCallback event;
               setters := setters s; world := world s |})
  | InCallback event =>
      match callback event.1 event.2 (world s) with
      | (Ok _, w) =>
          Some (LReturn event,
                {| thread := thread s; worker := AtLoop;
                   setters := setters s; world := w |})
      | (Raise e, w) =>
          Some (LRaise event e,
                {| thread := thread s; worker := Terminated e;
                   setters := setters s; world := w |})
      | (Unmodelled, _) => None
      end
  | AtWait =>
      Some (LWait,
            {| thread := thread s; worker := AtClear;
               setters := setters s; world := world s |})
  | AtClear =>
      Some (LClear,
            {| thread := wakeup_clear (thread s); worker := AtLoop;
               setters := setters s; world := world s |})
  | Terminated _ => None
  end.

(** A step of the whole system: a producer puts an item, a producer
    sets the flag, or the worker moves. *)
Inductive step : System → Label → System → Prop :=
| step_put s event :
    step s (LPut event)
         {| thread := queue_put event (thread s); worker := worker s;
            setters := S (setters s); world := world s |}
| step_set s n :
    setters s = S n →
    step s LSet
         {| thread := wakeup_set (thread s); worker := worker s;
            setters := n; world := world s |}
| step_worker s l s' :
    worker_step s = Some (l, s') → step s l s'.

(** Executions, with the labels of their steps in order. *)
Inductive steps : System → list Label → System → Prop :=
| steps_nil s : steps s [] s
| steps_snoc s tr s' l s'' :
    steps s tr s' → step s' l s'' → steps s (tr ++ [l]) s''.

(** The worker running alone for at most [n] steps. *)
Fixpoint worker_run (n : nat) (s : System) : list Label * System :=
  match n with
  | O => ([], s)
  | S n' =>
      match worker_step s with
      | None => ([], s)
      | Some (l, s') =>
          let '(tr, s'') := worker_run n' s' in (l :: tr, s'')
      end
  end.

End Worker.

(** The events put, the deliveries begun and the deliveries that
    returned, each in the order of the execution. *)
Definition puts (tr : list Label) : list Event :=
  omap (λ l, match l with LPut e => Some e | _ => None end) tr.

Definition begun (tr : list Label) : list Event :=
  omap (λ l, match l with LBegin e => Some e | _ => None end) tr.

Definition returned (tr : list Label) : list Event :=
  omap (λ l, match l with LReturn e => Some e | _ => None end) tr.

(** The deliveries that ended, by returning or by raising. *)
Definition ended (tr : list Label) : list Event :=
  omap (λ l, match l with LReturn e | LRaise e _ => Some e | _ => None end) tr.

(** The store after the callback has been run on the events in turn,
    each call starting from the store the previous one left. *)
Definition run_callbacks (callback : Sink) (w : Store) (events : list Event) : Store :=
  foldl (λ w e, (callback e.1 e.2 w).2) w events.

(** Scanning an execution for overlapping deliveries: [cur] is the
    delivery that is under way; a delivery may only begin when none
    is, and only the one under way may end.  [None] reports an
    overlap. *)
Fixpoint deliveries (cur : option Event) (tr : list Label) : option (option Event) :=
  match tr with
  | [] => Some cur
  | LBegin e :: tr' =>
      match cur with
      | None => deliveries (Some e) tr'
      | Some _ => None
      end
  | LReturn e :: tr' | LRaise e _ :: tr' =>
      match cur with
      | Some e' => if decide (e' = e) then deliveries None tr' else None
      | None => None
      end
  | _ :: tr' => deliveries cur tr'
  end.

Definition non_overlapping (tr : list Label) : Prop :=
  is_Some (deliveries None tr).

(** ** Templates written with plain placeholders

    The templates the notification system is written for: literal
    text without braces, doubled braces, and placeholders [{key}]
    whose key is a plain name. *)

Inductive Piece :=
| Text (s : string)
| Field (key : string)
| OpenBrace
| CloseBrace.

(** The text of a piece in a template. *)
Definition render_piece (p : Piece) : string :=
  match p with
  | Text s => s
  | Field key => "{" +:+ key +:+ "}"
  | OpenBrace => "{{"
  | CloseBrace => "}}"
  end.

Definition render (pieces : list Piece) : string :=
  foldr (λ p r, render_piece p +:+ r) "" pieces.

(** What a piece should become: a placeholder takes the value of its
    key, or stays as it is when the key is absent; a doubled brace
    becomes a single one. *)
Definition substitute (kwargs : gmap string string) (p : Piece) : string :=
  match p with
  | Text s => s
  | Field key => default ("{" +:+ key +:+ "}") (kwargs !! key)
  | OpenBrace => "{"
  | CloseBrace => "}"
  end.

(** The text a template should become. *)
Definition expected (kwargs : gmap string string) (pieces : list Piece) : string :=
  foldr (λ p r, substitute kwargs p +:+ r) "" pieces.

Fixpoint string_forall (f : ascii → bool) (s : string) : bool :=
  match s with
  | "" => true
  | String c r => f c && string_forall f r
  end.

Definition is_brace (c : ascii) : bool := (c =? "{")%char || (c =? "}")%char.

(** The characters that end or structure a field name. *)
Definition is_markup (c : ascii) : bool :=
  is_brace c || (c =? "[")%char || (c =? ".")%char
  || (c =? "!")%char || (c =? ":")%char.

(** A plain key: not empty, not a number, free of markup. *)
Definition plain_key (key : string) : bool :=
  match key with
  | "" => false
  | _ =>
      string_forall (λ c, negb (is_markup c)) key
      && match Format.get_integer key with
         | Format.NotInteger => true
         | _ => false
         end
  end.

Definition plain_piece (p : Piece) : bool :=
  match p with
  | Text s => string_forall (λ c, negb (is_brace c)) s
  | Field key => plain_key key
  | OpenBrace | CloseBrace => true
  end.

(** A piece whose key, if it has one, is plain and made of ASCII
    characters only, so that it holds no digit of another script
    however the text is encoded. *)
Definition is_ascii_char (c : ascii) : bool := (N_of_ascii c <? 128)%N.

Definition named_piece (p : Piece) : bool :=
  plain_piece p
  && match p with
     | Field key => string_forall is_ascii_char key
     | _ => true
     end.

(** [sub] occurs in [s]. *)
Definition substring_of (sub s : string) : Prop :=
  ∃ pre post, s = pre +:+ sub +:+ post.

(** The handlers the manager has called, in order. *)
Definition send_event_calls (tr : list Call) : list NotificationHandler :=
  omap (λ c, match c with CallSendEvent h _ _ => Some h | _ => None end) tr.

(** The sink invocations, in order. *)
Definition send_message_calls (tr : list Call) : list (EventType * string) :=
  omap (λ c, match c with CallSendMessage _ k m => Some (k, m) | _ => None end) tr.

(** The machine after the manager has noted its call of [handler]. *)
Definition called (handler : NotificationHandler) (event_type : EventType)
    (params : gmap string string) (m : Machine) : Machine :=
  {| store := store m; trace := trace m ++ [CallSendEvent handler event_type params] |}.

(** The module as executed in the empty store. *)
Definition globals : Globals := fst (exec_module empty_store).
Definition module_store : Store := snd (exec_module empty_store).
Definition module_machine : Machine := {| store := module_store; trace := [] |}.

(** A sink of a subclass that always fails, as a transport that is
    down would. *)
Definition failing_sink : Sink := λ _ _ st, (Raise (OtherError "ConnectionError"), st).

(** A handler named Box with the defaults of the module, one that
    only lets [MESSAGE] through and has no template at all, and one
    whose template for [MESSAGE] is a single opening brace. *)
Definition box : NotificationHandler :=
  NotificationHandler__init__ globals (Some "Box") None None.

Definition quiet_store : Store :=
  snd (alloc_set {[MESSAGE]} (snd (alloc_dict ∅ empty_store))).

Definition quiet : NotificationHandler :=
  NotificationHandler__init__ globals (Some "Quiet") (Some 1) (Some 0).

Definition broken_store : Store :=
  snd (alloc_set {[MESSAGE]} (snd (alloc_dict {[MESSAGE := "{"]} empty_store))).

(** A handler of a subclass whose transport is down, and two plain
    handlers, all with the defaults of the module. *)
Definition down : NotificationHandler :=
  override_send_message
    (NotificationHandler__init__ globals (Some "Down") None None) failing_sink.

Definition first_handler : NotificationHandler :=
  NotificationHandler__init__ globals (Some "H1") None None.

Definition third_handler : NotificationHandler :=
  NotificationHandler__init__ globals (Some "H3") None None.

(** The item the worker has taken from the queue and not yet passed
    to the callback, and the delivery that is under way. *)
Definition in_hand (s : System) : list Event :=
  match worker s with
  | AtCall e => [e]
  | _ => []
  end.

Definition in_flight (s : System) : option Event :=
  match worker s with
  | InCallback e => Some e
  | _ => None
  end.

(** Two notifications, and a system in which they were queued and
    the worker was ended by the failure of the first delivery. *)
Definition started : Event := (START, "[Server] Server started!").
Definition stopped : Event := (SHUTDOWN, "[Server] Server shutdown!").
Definition crashed : Event := (CRASH, "[Server] Server crashed!").

Definition dead_system : System :=
  {| thread := {| event_queue := [stopped]; wakeup_event := false |};
     worker := Terminated (OtherError "ConnectionError");
     setters := 2; world := empty_store |}.

(** What an execution keeps true: the puts are the deliveries begun,
    then the item in hand, then the queue; the deliveries begun are
    those that ended, then the one under way; deliveries do not
    overlap; the worker is about to [get] only on a queue that is not
    empty. *)
Definition invariant (tr : list Label) (s : System) : Prop :=
  puts tr = (begun tr ++ in_hand s ++ event_queue (thread s))%list
  ∧ deliveries None tr = Some (in_flight s)
  ∧ (worker s = AtGet → event_queue (thread s) ≠ []).

(** The store of an execution is what the callback made of the
    initial store, called on the deliveries that ended, in order; and
    the deliveries begun are those that ended, then the one under
    way. *)
Definition effects (callback : Sink) (w : Store) (tr : list Label) (s : System) : Prop :=
  world s = run_callbacks callback w (ended tr)
  ∧ begun tr = (ended tr ++ option_list (in_flight s))%list.

(** What a run of the worker alone has achieved when everything
    that was queued has been delivered. *)
Definition drained (cur : option Event) (todo : list Event)
    (r : list Label * System) : Prop :=
  worker r.2 = AtLoop
  ∧ event_queue (thread r.2) = []
  ∧ puts r.1 = []
  ∧ begun r.1 = todo
  ∧ returned r.1 = (option_list cur ++ todo)%list
  ∧ deliveries cur r.1 = Some None.

(** A system in which three notifications were put while the worker
    took up the first, and one in which the first delivery is under
    way with a second notification waiting. *)
Definition busy_system : System :=
  {| thread := {| event_queue := [crashed; stopped]; wakeup_event := true |};
     worker := InCallback started; setters := 2; world := empty_store |}.

Definition delivering_system : System :=
  {| thread := {| event_queue := [stopped]; wakeup_event := false |};
     worker := InCallback started; setters := 2; world := empty_store |}.

(** ** Log files

    [get_logfile_path] sees the file system through [os.path.isdir]
    and [os.path.exists], and the clock through [datetime.today()]:
    the first two are given as the answers to every path, the date as
    the text that [strftime] returns.  Paths are joined as POSIX
    paths are. *)

Definition FileExistsError : pyexn := OtherError "FileExistsError".

Record FileSystem := {
  isdir : string → bool;
  path_exists : string → bool
}.

Definition startswith_sep (s : string) : bool :=
  match s with
  | String c _ => (c =? "/")%char
  | "" => false
  end.

Fixpoint endswith_sep (s : string) : bool :=
  match s with
  | "" => false
  | String c "" => (c =? "/")%char
  | String _ r => endswith_sep r
  end.

(** [os.path.join(a, b)]: an absolute [b] replaces [a]; otherwise [b]
    is appended, after a separator unless [a] is empty or ends with
    one. *)
Definition os_path_join (a b : string) : string :=
  if startswith_sep b then b
  else if match a with "" => true | _ => endswith_sep a end then a +:+ b
  else a +:+ "/" +:+ b.

(** What joining puts between [a] and a relative path: a separator,
    unless [a] is empty or ends with one. *)
Definition separator_after (a : string) : string :=
  match a with
  | "" => ""
  | _ => if endswith_sep a then "" else "/"
  end.

(** The state of the [while] loop of [get_logfile_path]: still
    searching, with the counter and the path to try next, or left
    with a result. *)
Inductive SearchState :=
| Searching (i : N) (logfile_path : string)
| Finished (r : outcome string).

(** One evaluation of the loop test followed by the loop body. *)
Definition logfile_loop (fs : FileSystem) (log_path log_filename ending : string)
    (st : SearchState) : SearchState :=
  match st with
  | Searching i logfile_path =>
      if path_exists fs logfile_path then
        if (1000000 <? i)%N then Finished (Raise FileExistsError)
        else
          Searching (i + 1)
            (os_path_join log_path
               (log_filename +:+ "_" +:+ pretty i +:+ "." +:+ ending))
      else Finished (Ok logfile_path)
  | Finished r => Finished r
  end.

(** What the function returns when the loop is left. *)
Definition search_result (st : SearchState) : outcome string :=
  match st with
  | Finished r => r
  | Searching _ _ => Unmodelled
  end.

(** [get_logfile_path(log_path, base_filename, ending)], on the day
    whose date is printed as [datetime_string].  The loop is left
    after at most 1000001 tests. *)
Definition get_logfile_path (fs : FileSystem) (datetime_string : string)
    (log_path : string) (base_filename : option string) (ending : string)
    : outcome string :=
  if negb (isdir fs log_path) then Raise ValueError
  else
    let base_string :=
      match base_filename with
      | None => ""
      | Some base_filename => base_filename +:+ "_"
      end in
    let log_filename := base_string +:+ datetime_string in
    search_result
      (N.iter 1000001 (logfile_loop fs log_path log_filename ending)
         (Searching 1 (os_path_join log_path (log_filename +:+ "." +:+ ending)))).

(** The name of the log file of the day, and the paths that
    [get_logfile_path] tries, in order: the plain one, then the
    numbered ones. *)
Definition log_filename_of (datetime_string : string) (base_filename : option string)
    : string :=
  match base_filename with
  | None => ""
  | Some base_filename => base_filename +:+ "_"
  end +:+ datetime_string.

Definition candidate (log_path log_filename ending : string) (j : N) : string :=
  if (j =? 0)%N then os_path_join log_path (log_filename +:+ "." +:+ ending)
  else os_path_join log_path (log_filename +:+ "_" +:+ pretty j +:+ "." +:+ ending).

(** A file system with a directory [logs] that holds the plain log
    file of 2 January 2024, and one in which every path exists. *)
Definition one_log_fs : FileSystem :=
  {| isdir := λ p, String.eqb p "logs";
     path_exists := λ p, String.eqb p "logs" || String.eqb p "logs/astrotux_2024-01-02.log" |}.

Definition full_fs : FileSystem :=
  {| isdir := λ _, true; path_exists := λ _, true |}.

(** ** Logging setup

    The part of the [logging] library that the two setup functions
    use: handlers with a level, a formatter and filters, and a root
    logger with a level and a list of handlers.  A record is reduced
    to its level and its message; what is observed of a logging call
    is the list of streams and files that the record is written to. *)

Definition LOGFORMAT : string :=
  "[%(asctime)s] [%(name)s/%(threadName)s/%(levelname)s] %(message)s".
Definition CLOGFORMAT : string :=
  "[%(asctime)s] %(log_color)s[%(name)s/%(threadName)s/%(levelname)s]%(reset)s %(message_log_color)s%(message)s".
Definition DATEFORMAT : string := "%H:%M:%S".

Definition LOGCOLORS : list (string * string) :=
  [("DEBUG", "white"); ("INFO", "green"); ("WARNING", "yellow");
   ("ERROR", "red"); ("CRITICAL", "black,bg_red")].

Definition SECONDARY_LOG_COLORS : list (string * list (string * string)) :=
  [("message",
    [("DEBUG", "white"); ("INFO", "light_white"); ("WARNING", "yellow");
     ("ERROR", "red"); ("CRITICAL", "red")])].

(** The levels of [logging]. *)
Definition NOTSET : N := 0.
Definition DEBUG : N := 10.
Definition INFO : N := 20.
Definition WARNING : N := 30.
Definition ERROR : N := 40.
Definition CRITICAL : N := 50.

Record LogRecord := {
  levelno : N;
  msg : string
}.

Inductive LogTarget :=
| ToStdout
| ToStderr
| ToFile (path : string).

Inductive LogFormatter :=
| ColoredFormatter (fmt datefmt : string) (log_colors : list (string * string))
                   (secondary_log_colors : list (string * list (string * string)))
| Formatter (fmt datefmt : string).

Record LogHandler := {
  stream : LogTarget;
  formatter : option LogFormatter;
  level : N;
  filters : list (LogRecord → bool)
}.

Record Logger := {
  logger_level : N;
  logger_handlers : list LogHandler
}.

(** [logging.StreamHandler(stream)] and [logging.FileHandler(path)]
    as they are when just built. *)
Definition new_handler (target : LogTarget) : LogHandler :=
  {| stream := target; formatter := None; level := NOTSET; filters := [] |}.

Definition setFormatter (f : LogFormatter) (h : LogHandler) : LogHandler :=
  {| stream := stream h; formatter := Some f; level := level h; filters := filters h |}.

Definition setLevel (l : N) (h : LogHandler) : LogHandler :=
  {| stream := stream h; formatter := formatter h; level := l; filters := filters h |}.

Definition addFilter (f : LogRecord → bool) (h : LogHandler) : LogHandler :=
  {| stream := stream h; formatter := formatter h; level := level h;
     filters := filters h ++ [f] |}.

Definition Logger_setLevel (l : N) (lg : Logger) : Logger :=
  {| logger_level := l; logger_handlers := logger_handlers lg |}.

(** [Logger.addHandler] with a handler that was just built: it is
    not yet in the list, and is appended. *)
Definition Logger_addHandler (h : LogHandler) (lg : Logger) : Logger :=
  {| logger_level := logger_level lg; logger_handlers := logger_handlers lg ++ [h] |}.

(** [Handler.filter] and the level test of [Logger.callHandlers]. *)
Definition handler_takes (r : LogRecord) (h : LogHandler) : bool :=
  (level h <=? levelno r)%N && forallb (λ f, f r) (filters h).

(** [Logger.callHandlers] on the root logger: every handler that
    takes the record writes it; without any handler the handler of
    last resort writes warnings and above to [sys.stderr]. *)
Definition callHandlers (lg : Logger) (r : LogRecord) : list LogTarget :=
  match logger_handlers lg with
  | [] => if (WARNING <=? levelno r)%N then [ToStderr] else []
  | hs => stream <$> List.filter (handler_takes r) hs
  end.

(** A logging call that reaches the root logger [lg] with its level
    as effective level: [isEnabledFor], then [callHandlers]. *)
Definition Logger_log (lg : Logger) (r : LogRecord) : list LogTarget :=
  if (levelno r <=? 0)%N then []
  else if (logger_level lg <=? levelno r)%N then callHandlers lg r
  else [].

(** [setup_console_logging(log_debug)], on the root logger. *)
Definition setup_console_logging (log_debug : bool) (root_logger : Logger) : Logger :=
  let colorformatter :=
    ColoredFormatter CLOGFORMAT DATEFORMAT LOGCOLORS SECONDARY_LOG_COLORS in
  let root_logger := Logger_setLevel DEBUG root_logger in
  let out_console := new_handler ToStdout in
  let out_console := setFormatter colorformatter out_console in
  let out_console := setLevel (if log_debug then DEBUG else INFO) out_console in
  let out_console := addFilter (λ record, (levelno record <=? WARNING)%N) out_console in
  let root_logger := Logger_addHandler out_console root_logger in
  let err_console := new_handler ToStderr in
  let err_console := setFormatter colorformatter err_console in
  let err_console := setLevel ERROR err_console in
  Logger_addHandler err_console root_logger.

(** What may go wrong in the file system, for each path:
    [os.makedirs] and the opening of a log file raise what is given
    here, or succeed. *)
Record FileSystemFaults := {
  makedirs_error : string → option pyexn;
  open_error : string → option pyexn
}.

(** The file system after a successful [os.makedirs(p)], and after a
    file was opened for appending at [p]. *)
Definition makedirs (p : string) (fs : FileSystem) : FileSystem :=
  {| isdir := λ q, if String.eqb q p then true else isdir fs q;
     path_exists := λ q, if String.eqb q p then true else path_exists fs q |}.

Definition create_file (p : string) (fs : FileSystem) : FileSystem :=
  {| isdir := isdir fs;
     path_exists := λ q, if String.eqb q p then true else path_exists fs q |}.

(** [setup_file_logging(log_path, log_debug)]: the handler that is
    returned, or the exception, with the file system and the root
    logger as they are left. *)
Definition setup_file_logging (faults : FileSystemFaults) (datetime_string : string)
    (log_path : string) (log_debug : bool) (fs : FileSystem) (root_logger : Logger)
    : outcome LogHandler * (FileSystem * Logger) :=
  let plainformatter := Formatter LOGFORMAT DATEFORMAT in
  let root_logger := Logger_setLevel DEBUG root_logger in
  let created :=
    if negb (path_exists fs log_path) then
      match makedirs_error faults log_path with
      | Some e => Raise e
      | None => Ok (makedirs log_path fs)
      end
    else Ok fs in
  match created with
  | Ok fs =>
      match get_logfile_path fs datetime_string log_path (Some "astrotux") "log" with
      | Ok logfile_path =>
          match open_error faults logfile_path with
          | Some e => (Raise e, (fs, root_logger))
          | None =>
              let file_log := new_handler (ToFile logfile_path) in
              let file_log := setFormatter plainformatter file_log in
              let file_log := setLevel (if log_debug then DEBUG else INFO) file_log in
              (Ok file_log,
               (create_file logfile_path fs, Logger_addHandler file_log root_logger))
          end
      | Raise e => (Raise e, (fs, root_logger))
      | Unmodelled => (Unmodelled, (fs, root_logger))
      end
  | Raise e => (Raise e, (fs, root_logger))
  | Unmodelled => (Unmodelled, (fs, root_logger))
  end.

(** No fault at all, and a root logger as [logging] starts it. *)
Definition no_faults : FileSystemFaults :=
  {| makedirs_error := λ _, None; open_error := λ _, None |}.

Definition fresh_root : Logger :=
  {| logger_level := WARNING; logger_handlers := [] |}.

(** The targets of the handlers of [lg] that take [r], and what the
    two console handlers add for a record of level [l]. *)
Definition taken (lg : Logger) (r : LogRecord) : list LogTarget :=
  stream <$> List.filter (handler_takes r) (logger_handlers lg).

Definition console_targets (log_debug : bool) (l : N) : list LogTarget :=
  ((if ((if log_debug then DEBUG else INFO) <=? l)%N && (l <=? WARNING)%N
    then [ToStdout] else [])
   ++ (if (ERROR <=? l)%N then [ToStderr] else []))%list.

(** The file system that [get_logfile_path] sees in
    [setup_file_logging]. *)
Definition prepared (log_path : string) (fs : FileSystem) : FileSystem :=
  if path_exists fs log_path then fs else makedirs log_path fs.

(** The handler that [setup_file_logging] builds for [logfile_path]. *)
Definition file_handler (log_debug : bool) (logfile_path : string) : LogHandler :=
  {| stream := ToFile logfile_path;
     formatter := Some (Formatter LOGFORMAT DATEFORMAT);
     level := if log_debug then DEBUG else INFO;
     filters := [] |}.

(** A file system in which [logs] is a file, not a directory. *)
Definition logs_is_a_file_fs : FileSystem :=
  {| isdir := λ _, false; path_exists := λ p, String.eqb p "logs" |}.

(** ** Keyboard input

    [KeyboardThread.run] reads the name [active]: a name that is not
    local is looked up in the globals of the module, then in the
    builtins.  Values are kept only as far as their truth goes. *)
Module Keyboard.

Definition NameError : pyexn := OtherError "NameError".
Definition EOFError : pyexn := OtherError "EOFError".

Inductive PyValue :=
| PyBool (b : bool)
| PyNone
| PyObject (description : string).

Definition truth (v : PyValue) : bool :=
  match v with
  | PyBool b => b
  | PyNone => false
  | PyObject _ => true
  end.

(** The names that the module binds at its top level, in the order
    of the source. *)
Definition module_names : list string :=
  [ "threading"; "time"; "asyncio"; "Enum"; "Queue"; "logging"; "colorlog";
    "sys"; "os"; "datetime"; "KeyboardThread"; "LOGFORMAT"; "CLOGFORMAT";
    "DATEFORMAT"; "LOGCOLORS"; "SECONDARY_LOG_COLORS"; "get_logfile_path";
    "setup_console_logging"; "setup_file_logging"; "EventType";
    "NotificationManager"; "safeformat"; "DEFAULT_EVENT_FORMATS";
    "NotificationHandler"; "QueuedNotificationHandler" ].

Definition module_globals : gmap string PyValue :=
  list_to_map ((λ n, (n, PyObject n)) <$> module_names).

(** The lookup of a global name. *)
Definition load_global (globals builtins : gmap string PyValue) (name : string)
    : outcome PyValue :=
  match globals !! name with
  | Some v => Ok v
  | None =>
      match builtins !! name with
      | Some v => Ok v
      | None => Raise NameError
      end
  end.

(** A [KeyboardThread]: the callback ([None] by default; a callback
    returns or raises) and the attribute [active]. *)
Record KeyboardThread := {
  callback : option (string → option pyexn);
  active : bool
}.

Inductive Action :=
| Call (line : string)
| Sleep.

Inductive RunState :=
| Running
| Died (e : pyexn).

(** [KeyboardThread.run] for at most [n] turns of its loop, with the
    lines that [input()] will read: what the thread does, and whether
    it still runs.  [input()] raises [EOFError] when no line is
    left; calling [None] raises [TypeError]. *)
Fixpoint run (n : nat) (self : KeyboardThread)
    (globals builtins : gmap string PyValue) (stdin : list string)
    : list Action * RunState :=
  match n with
  | O => ([], Running)
  | S n' =>
      match load_global globals builtins "active" with
      | Ok v =>
          if truth v then
            match stdin with
            | [] => ([], Died EOFError)
            | line :: stdin' =>
                match callback self with
                | None => ([], Died TypeError)
                | Some f =>
                    match f line with
                    | Some e => ([Call line], Died e)
                    | None =>
                        let '(actions, st) := run n' self globals builtins stdin' in
                        (Call line :: actions, st)
                    end
                end
            end
          else
            let '(actions, st) := run n' self globals builtins stdin in
            (Sleep :: actions, st)
      | Raise e => ([], Died e)
      | Unmodelled => ([], Running)
      end
  end.

End Keyboard.

(** The pieces of the default templates. *)
Definition default_pieces (k : EventType) : list Piece :=
  match k with
  | MESSAGE => [Text "["; Field "name"; Text "] "; Field "message"]
  | START => [Text "["; Field "name"; Text "] Server started!"]
  | REGISTERED => [Text "["; Field "name"; Text "] Server registered with Playfab!"]
  | SHUTDOWN => [Text "["; Field "name"; Text "] Server shutdown!"]
  | CRASH => [Text "["; Field "name"; Text "] Server crashed!"]
  | PLAYER_JOIN =>
      [Text "["; Field "name"; Text "] Player '"; Field "player";
       Text "' joined the game"]
  | PLAYER_LEAVE =>
      [Text "["; Field "name"; Text "] Player '"; Field "player";
       Text "' left the game"]
  | COMMAND => [Text "["; Field "name"; Text "] Command executed: "; Field "command"]
  end.

(** A system whose worker waits while a notification is queued. *)
Definition waiting_system : System :=
  {| thread := {| event_queue := [started]; wakeup_event := true |};
     worker := AtWait; setters := 0; world := empty_store |}.

(** A queued handler named Box, built with the defaults in the store
    of the module, and the store that its construction leaves. *)
Definition queued_box : NotificationHandler :=
  fst (QueuedNotificationHandler__init__ globals (Some "Box") None None module_store).

Definition queued_box_store : Store :=
  snd (QueuedNotificationHandler__init__ globals (Some "Box") None None module_store).

(** * Properties *)

(** ** Outcomes and strings *)

Lemma string_append_cons (x : ascii) (a b : string) :
  String x a +:+ b = String x (a +:+ b).
Proof. reflexivity. Qed.

Lemma string_append_nil_l (a : string) : "" +:+ a = a.
Proof. reflexivity. Qed.

Lemma string_append_assoc (a b c : string) : (a +:+ b) +:+ c = a +:+ (b +:+ c).
Proof.
  induction a as [|x a IH]; [done|].
  by rewrite !string_append_cons, IH.
Qed.

Lemma string_append_nil_r (a : string) : a +:+ "" = a.
Proof.
  induction a as [|x a IH]; [done|].
  by rewrite string_append_cons, IH.
Qed.

Lemma snoc_append (a : string) (c : ascii) (b : string) :
  Format.snoc a c +:+ b = a +:+ String c b.
Proof. unfold Format.snoc. by rewrite string_append_assoc. Qed.

(** ** [str.format_map] on plain templates *)

Section FormatMap.

Variable getitem : string → outcome string.

#[local] Abbreviation build := (Format.build_string getitem).

(** Literal text without braces is copied. *)
Lemma build_text (s rest : string) :
  string_forall (λ c, negb (is_brace c)) s = true →
  build Format.InLiteral (s +:+ rest)
  = outcome_map (String.append s) (build Format.InLiteral rest).
Proof.
  induction s as [|c s IH]; intros Hs.
  - rewrite string_append_nil_l. by destruct (build Format.InLiteral rest).
  - simpl in Hs. apply andb_true_iff in Hs as [Hc Hs].
    unfold is_brace in Hc. apply negb_true_iff, orb_false_iff in Hc as [Hc1 Hc2].
    rewrite string_append_cons. cbn [Format.build_string].
    rewrite Hc1, Hc2, (IH Hs). by destruct (build Format.InLiteral rest).
Qed.

(** A doubled brace gives one brace. *)
Lemma build_open_brace (rest : string) :
  build Format.InLiteral ("{{" +:+ rest)
  = outcome_map (String "{") (build Format.InLiteral rest).
Proof. reflexivity. Qed.

Lemma build_close_brace (rest : string) :
  build Format.InLiteral ("}}" +:+ rest)
  = outcome_map (String "}") (build Format.InLiteral rest).
Proof. reflexivity. Qed.

(** A single opening brace starts a field name. *)
Lemma build_field_start (d : ascii) (r : string) :
  (d =? "{")%char = false →
  build Format.InLiteral (String "{" (String d r))
  = build (Format.InFieldName "" false) (String d r).
Proof.
  intros Hd.
  change (build Format.InLiteral (String "{" (String d r)))
    with (if (d =? "{")%char
          then outcome_map (String "{") (build Format.InLiteral r)
          else build (Format.InFieldName "" false) (String d r)).
  by rewrite Hd.
Qed.

(** Inside a field name, characters that are not markup are added to
    the name; the closing brace ends the field. *)
Lemma build_field_name (key acc rest : string) :
  string_forall (λ c, negb (is_markup c)) key = true →
  build (Format.InFieldName acc false) (key +:+ String "}" rest)
  = outcome_bind (Format.output_markup getitem (acc +:+ key) zero "")
      (λ v, outcome_map (String.append v) (build Format.InLiteral rest)).
Proof.
  revert acc. induction key as [|c key IH]; intros acc Hk.
  - by rewrite string_append_nil_r, string_append_nil_l.
  - simpl in Hk. apply andb_true_iff in Hk as [Hc Hk].
    unfold is_markup, is_brace in Hc.
    apply negb_true_iff in Hc. repeat apply orb_false_iff in Hc as [Hc ?].
    rewrite string_append_cons. cbn [Format.build_string].
    repeat match goal with H : (_ =? _)%char = false |- _ => rewrite H; clear H end.
    rewrite (IH _ Hk). by rewrite snoc_append.
Qed.

(** A plain key is a whole field name: nothing follows it. *)
Lemma field_name_split_plain (key : string) :
  string_forall (λ c, negb (is_markup c)) key = true →
  Format.field_name_split key = (key, "").
Proof.
  induction key as [|c key IH]; simpl; intros Hk; [done|].
  apply andb_true_iff in Hk as [Hc Hk].
  unfold is_markup in Hc.
  apply negb_true_iff in Hc. repeat apply orb_false_iff in Hc as [Hc ?].
  repeat match goal with H : _ = false |- _ => rewrite H end.
  by rewrite (IH Hk).
Qed.

(** The object of a plain field is what the mapping gives for its key. *)
Lemma output_markup_plain (key : string) :
  plain_key key = true →
  Format.output_markup getitem key zero ""
  = outcome_bind (getitem key) Ok.
Proof.
  intros Hk. unfold plain_key in Hk.
  destruct key as [|c key]; [done|].
  apply andb_true_iff in Hk as [Hm Hi].
  unfold Format.output_markup, Format.get_field_object.
  rewrite (field_name_split_plain _ Hm).
  destruct (Format.get_integer (String c key)); try done.
  destruct (getitem (String c key)); simpl; done.
Qed.

(** A plain placeholder is replaced by the value of its key. *)
Lemma build_field (key rest : string) :
  plain_key key = true →
  build Format.InLiteral ("{" +:+ key +:+ "}" +:+ rest)
  = outcome_bind (getitem key)
      (λ v, outcome_map (String.append v) (build Format.InLiteral rest)).
Proof.
  intros Hk. pose proof Hk as Hk'. unfold plain_key in Hk'.
  destruct key as [|c key]; [done|].
  apply andb_true_iff in Hk' as [Hm _].
  pose proof Hm as Hc. simpl in Hc. apply andb_true_iff in Hc as [Hc _].
  unfold is_markup, is_brace in Hc.
  apply negb_true_iff in Hc. repeat apply orb_false_iff in Hc as [Hc ?].
  change ("{" +:+ String c key +:+ "}" +:+ rest)
    with (String "{" (String c (key +:+ String "}" rest))).
  rewrite (build_field_start _ _ Hc).
  rewrite <- (string_append_cons c key (String "}" rest)).
  rewrite (build_field_name (String c key) "" rest Hm).
  change ("" +:+ String c key) with (String c key).
  rewrite (output_markup_plain _ Hk).
  by destruct (getitem (String c key)).
Qed.

End FormatMap.

(** [format_map] on a template of plain pieces, for any mapping that
    answers every key. *)
Lemma format_map_render (kwargs : gmap string string) (pieces : list Piece) :
  forallb plain_piece pieces = true →
  Format.format_map (render pieces) (SafeDict__getitem__ kwargs)
  = Ok (expected kwargs pieces).
Proof.
  unfold Format.format_map.
  induction pieces as [|p pieces IH]; intros Hp; [done|].
  simpl in Hp. apply andb_true_iff in Hp as [Hp Hps].
  specialize (IH Hps).
  change (render (p :: pieces)) with (render_piece p +:+ render pieces).
  change (expected kwargs (p :: pieces))
    with (substitute kwargs p +:+ expected kwargs pieces).
  destruct p as [s|key| |]; simpl in Hp; unfold render_piece, substitute.
  - by rewrite (build_text _ _ _ Hp), IH.
  - rewrite !string_append_assoc, (build_field _ _ _ Hp), IH.
    unfold SafeDict__getitem__, SafeDict__missing__.
    by destruct (kwargs !! key).
  - by rewrite build_open_brace, IH.
  - by rewrite build_close_brace, IH.
Qed.

Lemma safeformat_render (kwargs : gmap string string) (pieces : list Piece) :
  forallb plain_piece pieces = true →
  kwargs !! "str" = None →
  safeformat (render pieces) kwargs = Ok (expected kwargs pieces).
Proof.
  intros Hp Hstr. unfold safeformat. rewrite Hstr.
  by apply format_map_render.
Qed.

(** What a piece becomes occurs in what the template becomes. *)
Lemma expected_contains (kwargs : gmap string string) (pieces : list Piece) (p : Piece) :
  p ∈ pieces → substring_of (substitute kwargs p) (expected kwargs pieces).
Proof.
  induction 1 as [p pieces|p q pieces _ IH].
  - exists "", (expected kwargs pieces). by rewrite string_append_nil_l.
  - destruct IH as (pre & post & IH).
    exists (substitute kwargs q +:+ pre), post.
    change (expected kwargs (q :: pieces))
      with (substitute kwargs q +:+ expected kwargs pieces).
    by rewrite IH, string_append_assoc.
Qed.

Lemma named_pieces_plain (pieces : list Piece) :
  forallb named_piece pieces = true → forallb plain_piece pieces = true.
Proof.
  induction pieces as [|p pieces IH]; [done|]. simpl.
  intros [[Hp _]%andb_true_iff Hps]%andb_true_iff. by rewrite Hp, IH.
Qed.

(** X20: on a template made of brace-free text, doubled braces and
    placeholders [{key}] with plain ASCII keys, and a mapping
    without the key [str], [safeformat] returns the template with
    every placeholder whose key is present replaced by the value of
    the key and every placeholder whose key is absent left as it is,
    braces included; so the result contains [{k}] for each
    placeholder key [k] that the mapping lacks. *)
Theorem safeformat_plain_template (kwargs : gmap string string) (pieces : list Piece) :
  forallb named_piece pieces = true →
  kwargs !! "str" = None →
  safeformat (render pieces) kwargs = Ok (expected kwargs pieces)
  ∧ (∀ k v, Field k ∈ pieces → kwargs !! k = Some v →
       substring_of v (expected kwargs pieces))
  ∧ (∀ k, Field k ∈ pieces → kwargs !! k = None →
       substring_of ("{" +:+ k +:+ "}") (expected kwargs pieces)).
Proof.
  intros Hp%named_pieces_plain Hstr. split; [by apply safeformat_render|].
  split.
  - intros k v Hin Hk.
    pose proof (expected_contains kwargs pieces _ Hin) as H.
    simpl in H. by rewrite Hk in H.
  - intros k Hin Hk.
    pose proof (expected_contains kwargs pieces _ Hin) as H.
    simpl in H. by rewrite Hk in H.
Qed.

Lemma safeformat_plain_template_witness :
  forallb named_piece [Text "["; Field "name"; Text "] "; Field "message"] = true
  ∧ ({["name" := "Box"]} : gmap string string) !! "str" = None
  ∧ render [Text "["; Field "name"; Text "] "; Field "message"]
    = "[{name}] {message}"
  ∧ safeformat "[{name}] {message}" {["name" := "Box"]} = Ok "[Box] {message}".
Proof.
  split; [reflexivity|]. split; [reflexivity|]. split; [reflexivity|].
  exact (proj1 (safeformat_plain_template {["name" := "Box"]}
                  [Text "["; Field "name"; Text "] "; Field "message"]
                  eq_refl eq_refl)).
Defined.

(** C3: the code does not keep every missing replacement as it is.
    The template [{k[0]}] uses the key [k], the mapping lacks it, and
    the result is the single character [{], the first character of
    what [__missing__] returns: it does not contain [{k}]. *)
Theorem safeformat_item_of_missing_key :
  safeformat "{k[0]}" ∅ = Ok "{" ∧ ¬ substring_of "{k}" "{".
Proof.
  split; [reflexivity|].
  intros (pre & post & H).
  destruct pre as [|c [|d pre]]; [| |].
  - rewrite string_append_nil_l in H.
    change ("{k}" +:+ post) with (String "{" (String "k" (String "}" post))) in H.
    discriminate H.
  - rewrite string_append_cons, string_append_nil_l in H.
    change ("{k}" +:+ post) with (String "{" (String "k" (String "}" post))) in H.
    discriminate H.
  - rewrite !string_append_cons in H. discriminate H.
Qed.

(** C4, as amended: [safeformat] returns a result on every template
    made of brace-free text, doubled braces and placeholders with
    plain ASCII keys, for every mapping without the key [str]. *)
Theorem safeformat_returns_on_plain_templates
    (kwargs : gmap string string) (pieces : list Piece) :
  forallb named_piece pieces = true →
  kwargs !! "str" = None →
  ∃ message, safeformat (render pieces) kwargs = Ok message.
Proof.
  intros Hp%named_pieces_plain Hstr. exists (expected kwargs pieces). by apply safeformat_render.
Qed.

Lemma safeformat_returns_on_plain_templates_witness :
  forallb named_piece [OpenBrace; Field "player"; CloseBrace; Text " left"] = true
  ∧ ({["player" := "Ann"]} : gmap string string) !! "str" = None
  ∧ render [OpenBrace; Field "player"; CloseBrace; Text " left"]
    = "{{{player}}} left"
  ∧ ∃ message, safeformat "{{{player}}} left" {["player" := "Ann"]} = Ok message.
Proof.
  split; [reflexivity|]. split; [reflexivity|]. split; [reflexivity|].
  exact (safeformat_returns_on_plain_templates {["player" := "Ann"]}
           [OpenBrace; Field "player"; CloseBrace; Text " left"]
           eq_refl eq_refl).
Defined.

(** C4 as stated fails: a template that is a single opening brace
    makes [str.format_map] raise [ValueError]. *)
Lemma safeformat_single_brace_raises :
  safeformat "{" ∅ = Raise ValueError.
Proof. reflexivity. Qed.

(** What [safeformat] does outside the plain templates: the errors
    of [str.format_map], the second look at the value of a missing
    key, and the edge of what is modelled. *)
Example safeformat_other_templates :
  safeformat "}" ∅ = Raise ValueError
  ∧ safeformat "{}" ∅ = Raise ValueError
  ∧ safeformat "{0}" ∅ = Raise ValueError
  ∧ safeformat "{a" ∅ = Raise ValueError
  ∧ safeformat "{a{b}" ∅ = Raise ValueError
  ∧ safeformat "{a!x}" ∅ = Raise ValueError
  ∧ safeformat "{a[]}" ∅ = Raise ValueError
  ∧ safeformat "{a[99999999999999999999]}" ∅ = Raise ValueError
  ∧ safeformat "{a[5]}" ∅ = Raise IndexError
  ∧ safeformat "{a[b]}" ∅ = Raise TypeError
  ∧ safeformat "{a[0][0]}" ∅ = Ok "{"
  ∧ safeformat "{a]}" ∅ = Ok "{a]}"
  ∧ safeformat "{0a}" ∅ = Ok "{0a}"
  ∧ safeformat "{a!s:}" {["a" := "v"]} = Ok "v"
  ∧ safeformat "x}}y{{z" ∅ = Ok "x}y{z"
  ∧ safeformat "{{k}}" {["k" := "v"]} = Ok "{k}"
  ∧ safeformat "{message}" {["str" := "v"]} = Raise TypeError
  ∧ safeformat "{a.b}" ∅ = Unmodelled
  ∧ safeformat "{a!r}" ∅ = Unmodelled
  ∧ safeformat "{a:>5}" ∅ = Unmodelled.
Proof. repeat split; reflexivity. Qed.

(** ** [NotificationHandler.send_event] *)

Lemma bind_keywords_ok {A} (params : gmap string string) (body : M A) :
  params !! "self" = None →
  params !! "event_type" = None →
  bind_keywords params body = body.
Proof. intros H1 H2. unfold bind_keywords. by rewrite H1, H2. Qed.

Lemma bind_keywords_collision {A} (params : gmap string string) (body : M A)
    (m : Machine) :
  is_Some (params !! "self") ∨ is_Some (params !! "event_type") →
  bind_keywords params body m = (Raise TypeError, m).
Proof.
  unfold bind_keywords. intros [[v H]|[v H]]; rewrite H; [done|].
  by destruct (params !! "self").
Qed.

(** C5, as amended: for parameters that can be bound (no keyword
    named [self] or [event_type]), an event type that is not in the
    whitelist makes
    [send_event] return at once: no error, no sink invocation, the
    machine as it was, whatever the formats contain. *)
Theorem send_event_not_whitelisted (h : NotificationHandler) (k : EventType)
    (params : gmap string string) (m : Machine) :
  params !! "self" = None →
  params !! "event_type" = None →
  k ∉ get_set (store m) (whitelist h) →
  NotificationHandler_send_event h k params m = (Ok tt, m).
Proof.
  intros Hself Hev Hk. unfold NotificationHandler_send_event.
  rewrite bind_keywords_ok by done.
  unfold send_event_body, mbind, M_bind, get_store.
  by rewrite decide_False.
Qed.

(** C6, as amended: for parameters that can be bound (no keyword
    named [self] or [event_type]), a whitelisted event type without
    a template makes
    [send_event] raise [KeyError]; the sink is not invoked. *)
Theorem send_event_template_missing (h : NotificationHandler) (k : EventType)
    (params : gmap string string) (m : Machine) :
  params !! "self" = None →
  params !! "event_type" = None →
  k ∈ get_set (store m) (whitelist h) →
  get_dict (store m) (formats h) !! k = None →
  NotificationHandler_send_event h k params m = (Raise KeyError, m).
Proof.
  intros Hself Hev Hk Hf. unfold NotificationHandler_send_event.
  rewrite bind_keywords_ok by done.
  unfold send_event_body, mbind, M_bind, get_store.
  rewrite decide_True by done. by rewrite Hf.
Qed.

(** What [send_event] does when the template is there and formats. *)
Lemma send_event_formats (h : NotificationHandler) (k : EventType)
    (params : gmap string string) (m : Machine) (template message : string) :
  params !! "self" = None →
  params !! "event_type" = None →
  k ∈ get_set (store m) (whitelist h) →
  get_dict (store m) (formats h) !! k = Some template →
  safeformat template (<["name" := name h]> params) = Ok message →
  NotificationHandler_send_event h k params m
  = ((_send_message h k message (store m)).1,
     {| store := (_send_message h k message (store m)).2;
        trace := trace m ++ [CallSendMessage h k message] |}).
Proof.
  intros Hself Hev Hk Hf Hm. unfold NotificationHandler_send_event.
  rewrite bind_keywords_ok by done.
  unfold send_event_body, mbind, M_bind, get_store.
  rewrite decide_True by done. rewrite Hf.
  unfold lift, record, run_sink. rewrite Hm. simpl.
  by destruct (_send_message h k message (store m)) as [[] ?].
Qed.

(** What [send_event] does when formatting does not return. *)
Lemma send_event_format_fails (h : NotificationHandler) (k : EventType)
    (params : gmap string string) (m : Machine) (template : string) :
  params !! "self" = None →
  params !! "event_type" = None →
  k ∈ get_set (store m) (whitelist h) →
  get_dict (store m) (formats h) !! k = Some template →
  (∀ message, safeformat template (<["name" := name h]> params) ≠ Ok message) →
  ∃ r, NotificationHandler_send_event h k params m = (r, m) ∧ r ≠ Ok tt.
Proof.
  intros Hself Hev Hk Hf Hm. unfold NotificationHandler_send_event.
  rewrite bind_keywords_ok by done.
  unfold send_event_body, mbind, M_bind, get_store.
  rewrite decide_True by done. rewrite Hf. unfold lift.
  destruct (safeformat template _) as [message|e|] eqn:E.
  - by destruct (Hm message).
  - by exists (Raise e).
  - by exists Unmodelled.
Qed.

Lemma send_event_not_whitelisted_witness :
  (PLAYER_JOIN ∉ get_set quiet_store (whitelist quiet))
  ∧ NotificationHandler_send_event quiet PLAYER_JOIN {["player" := "Ann"]}
      {| store := quiet_store; trace := [] |}
    = (Ok tt, {| store := quiet_store; trace := [] |}).
Proof.
  assert (H : PLAYER_JOIN ∉ get_set quiet_store (whitelist quiet)).
  { apply (bool_decide_unpack (PLAYER_JOIN ∉ get_set quiet_store (whitelist quiet))).
    vm_compute. exact I. }
  split; [exact H|].
  exact (send_event_not_whitelisted quiet PLAYER_JOIN {["player" := "Ann"]}
           {| store := quiet_store; trace := [] |} eq_refl eq_refl H).
Defined.

Lemma send_event_template_missing_witness :
  MESSAGE ∈ get_set quiet_store (whitelist quiet)
  ∧ get_dict quiet_store (formats quiet) !! MESSAGE = None
  ∧ NotificationHandler_send_event quiet MESSAGE {["message" := "hello"]}
      {| store := quiet_store; trace := [] |}
    = (Raise KeyError, {| store := quiet_store; trace := [] |}).
Proof.
  assert (H : MESSAGE ∈ get_set quiet_store (whitelist quiet)).
  { apply (bool_decide_unpack (MESSAGE ∈ get_set quiet_store (whitelist quiet))).
    vm_compute. exact I. }
  split; [exact H|]. split; [reflexivity|].
  exact (send_event_template_missing quiet MESSAGE {["message" := "hello"]}
           {| store := quiet_store; trace := [] |} eq_refl eq_refl H eq_refl).
Defined.

(** C5 as stated fails: [PLAYER_JOIN] is not in the whitelist, but
    with a parameter named [event_type] the call raises [TypeError]
    instead of returning. *)
Lemma send_event_not_whitelisted_collision :
  (PLAYER_JOIN ∉ get_set quiet_store (whitelist quiet))
  ∧ NotificationHandler_send_event quiet PLAYER_JOIN {["event_type" := "join"]}
      {| store := quiet_store; trace := [] |}
    = (Raise TypeError, {| store := quiet_store; trace := [] |}).
Proof.
  split; [|reflexivity].
  apply (bool_decide_unpack (PLAYER_JOIN ∉ get_set quiet_store (whitelist quiet))).
  vm_compute. exact I.
Qed.

(** C6 as stated fails: [MESSAGE] is whitelisted and has no
    template, but with a parameter named [self] the call raises
    [TypeError], not [KeyError]. *)
Lemma send_event_template_missing_collision :
  MESSAGE ∈ get_set quiet_store (whitelist quiet)
  ∧ get_dict quiet_store (formats quiet) !! MESSAGE = None
  ∧ NotificationHandler_send_event quiet MESSAGE {["self" := "me"]}
      {| store := quiet_store; trace := [] |}
    = (Raise TypeError, {| store := quiet_store; trace := [] |}).
Proof.
  split; [|split; reflexivity].
  apply (bool_decide_unpack (MESSAGE ∈ get_set quiet_store (whitelist quiet))).
  vm_compute. exact I.
Qed.

(** C7, as amended: for parameters that can be bound (no keyword
    named [self] or [event_type]) and a whitelisted event type whose
    template is there and is formatted by [safeformat] to a message,
    [send_event]
    invokes the sink exactly once, with the event type and that
    message; the parameters that are formatted hold the name of the
    handler under [name], whatever the caller gave. *)
Theorem send_event_invokes_sink_once (h : NotificationHandler) (k : EventType)
    (params : gmap string string) (m : Machine) (template message : string) :
  params !! "self" = None →
  params !! "event_type" = None →
  k ∈ get_set (store m) (whitelist h) →
  get_dict (store m) (formats h) !! k = Some template →
  safeformat template (<["name" := name h]> params) = Ok message →
  (<["name" := name h]> params) !! "name" = Some (name h)
  ∧ ∃ r st,
      _send_message h k message (store m) = (r, st)
      ∧ NotificationHandler_send_event h k params m
        = (r, {| store := st; trace := trace m ++ [CallSendMessage h k message] |})
      ∧ send_message_calls
          (trace (NotificationHandler_send_event h k params m).2)
        = (send_message_calls (trace m) ++ [(k, message)])%list.
Proof.
  intros Hself Hev Hk Hf Hm. split; [apply lookup_insert_eq|].
  destruct (_send_message h k message (store m)) as [r st] eqn:Hs.
  exists r, st. split; [done|].
  rewrite (send_event_formats h k params m template message Hself Hev Hk Hf Hm), Hs.
  split; [done|]. unfold send_message_calls. simpl. by rewrite omap_app.
Qed.

Lemma send_event_invokes_sink_once_witness :
  PLAYER_JOIN ∈ get_set module_store (whitelist box)
  ∧ get_dict module_store (formats box) !! PLAYER_JOIN
    = Some "[{name}] Player '{player}' joined the game"
  ∧ safeformat "[{name}] Player '{player}' joined the game"
      (<["name" := name box]> {["player" := "Ann"]})
    = Ok "[Box] Player 'Ann' joined the game"
  ∧ value PLAYER_JOIN = "player_join"
  ∧ send_message_calls
      (trace (NotificationHandler_send_event box PLAYER_JOIN
                {["player" := "Ann"]} module_machine).2)
    = [(PLAYER_JOIN, "[Box] Player 'Ann' joined the game")].
Proof.
  assert (H : PLAYER_JOIN ∈ get_set module_store (whitelist box)).
  { apply (bool_decide_unpack (PLAYER_JOIN ∈ get_set module_store (whitelist box))).
    vm_compute. exact I. }
  assert (Hf : get_dict module_store (formats box) !! PLAYER_JOIN
               = Some "[{name}] Player '{player}' joined the game")
    by reflexivity.
  assert (Hm : safeformat "[{name}] Player '{player}' joined the game"
                 (<["name" := name box]> {["player" := "Ann"]})
               = Ok "[Box] Player 'Ann' joined the game")
    by reflexivity.
  split; [exact H|]. split; [exact Hf|]. split; [exact Hm|].
  split; [reflexivity|].
  assert (Hself : ({["player" := "Ann"]} : gmap string string) !! "self" = None)
    by reflexivity.
  assert (Hev : ({["player" := "Ann"]} : gmap string string) !! "event_type" = None)
    by reflexivity.
  destruct (send_event_invokes_sink_once box PLAYER_JOIN {["player" := "Ann"]}
              module_machine _ _ Hself Hev H Hf Hm)
    as (_ & r & st & _ & _ & Hcalls).
  exact Hcalls.
Defined.

(** A name given by the caller is overwritten by the name of the
    handler. *)
Example send_event_overwrites_name :
  send_message_calls
    (trace (NotificationHandler_send_event box PLAYER_JOIN
              (<["name" := "Mallory"]> {["player" := "Ann"]}) module_machine).2)
  = [(PLAYER_JOIN, "[Box] Player 'Ann' joined the game")].
Proof. reflexivity. Qed.

(** C7 as stated fails: [MESSAGE] is whitelisted and has a template,
    but with a parameter named [str] the call of [safeformat] raises
    [TypeError], and with a template that is a single brace it
    raises [ValueError]; in both cases the sink is not invoked. *)
Lemma send_event_formatting_error_skips_sink :
  MESSAGE ∈ get_set module_store (whitelist box)
  ∧ get_dict module_store (formats box) !! MESSAGE = Some "[{name}] {message}"
  ∧ NotificationHandler_send_event box MESSAGE {["str" := "hello"]} module_machine
    = (Raise TypeError, module_machine)
  ∧ send_message_calls (trace module_machine) = []
  ∧ MESSAGE ∈ get_set broken_store (whitelist quiet)
  ∧ get_dict broken_store (formats quiet) !! MESSAGE = Some "{"
  ∧ NotificationHandler_send_event quiet MESSAGE {["message" := "hello"]}
      {| store := broken_store; trace := [] |}
    = (Raise ValueError, {| store := broken_store; trace := [] |}).
Proof.
  split.
  { apply (bool_decide_unpack (MESSAGE ∈ get_set module_store (whitelist box))).
    vm_compute. exact I. }
  split; [reflexivity|]. split; [reflexivity|]. split; [reflexivity|].
  split.
  { apply (bool_decide_unpack (MESSAGE ∈ get_set broken_store (whitelist quiet))).
    vm_compute. exact I. }
  split; reflexivity.
Qed.

(** ** [NotificationManager] *)

(** A handler does not call [send_event] of any handler. *)
Lemma send_event_keeps_calls (h : NotificationHandler) (k : EventType)
    (params : gmap string string) (m : Machine) :
  send_event_calls (trace (NotificationHandler_send_event h k params m).2)
  = send_event_calls (trace m).
Proof.
  unfold NotificationHandler_send_event, bind_keywords.
  destruct (params !! "self"), (params !! "event_type"); try done.
  unfold send_event_body, mbind, M_bind, get_store.
  case_decide; [|done].
  destruct (get_dict (store m) (formats h) !! k) as [template|]; [|done].
  unfold lift, record, run_sink.
  destruct (safeformat template _) as [message| |]; [|done..].
  simpl. destruct (_send_message h k message (store m)) as [[] ?]; simpl;
    unfold send_event_calls; rewrite omap_app; simpl; by rewrite app_nil_r.
Qed.

(** The loop of the manager over [h :: hs]. *)
Lemma send_event_loop_cons (h : NotificationHandler)
    (hs : list NotificationHandler) (k : EventType)
    (params : gmap string string) (m : Machine) :
  send_event_loop (h :: hs) k params m
  = match NotificationHandler_send_event h k params (called h k params m) with
    | (Ok _, m') => send_event_loop hs k params m'
    | (Raise e, m') => (Raise e, m')
    | (Unmodelled, m') => (Unmodelled, m')
    end.
Proof. reflexivity. Qed.

(** The loop over [pre ++ post] is the loop over [pre], followed, if
    it returns, by the loop over [post]. *)
Lemma send_event_loop_app (pre post : list NotificationHandler)
    (k : EventType) (params : gmap string string) (m : Machine) :
  send_event_loop (pre ++ post) k params m
  = match send_event_loop pre k params m with
    | (Ok _, m') => send_event_loop post k params m'
    | (Raise e, m') => (Raise e, m')
    | (Unmodelled, m') => (Unmodelled, m')
    end.
Proof.
  revert m. induction pre as [|h pre IH]; intros m; [done|].
  change ((h :: pre) ++ post)%list with (h :: (pre ++ post))%list.
  rewrite !send_event_loop_cons.
  destruct (NotificationHandler_send_event h k params (called h k params m))
    as [[[]| |] m']; [apply IH|done..].
Qed.

(** The handlers called by the loop are a prefix of the registered
    ones, in their order; all of them when the loop returns. *)
Lemma send_event_loop_calls (hs : list NotificationHandler) (k : EventType)
    (params : gmap string string) (m : Machine) :
  ∃ visited rest,
    hs = (visited ++ rest)%list
    ∧ send_event_calls (trace (send_event_loop hs k params m).2)
      = (send_event_calls (trace m) ++ visited)%list
    ∧ ((send_event_loop hs k params m).1 = Ok tt → rest = []).
Proof.
  revert m. induction hs as [|h hs IH]; intros m.
  - exists [], []. simpl. by rewrite app_nil_r.
  - rewrite send_event_loop_cons.
    pose proof (send_event_keeps_calls h k params (called h k params m)) as Hh.
    destruct (NotificationHandler_send_event h k params (called h k params m))
      as [[[]| |] m'] eqn:E; simpl in Hh.
    + destruct (IH m') as (visited & rest & -> & Hcalls & Hrest).
      exists (h :: visited), rest. split; [done|].
      rewrite Hcalls, Hh. unfold called, send_event_calls; simpl.
      rewrite omap_app. simpl. by rewrite <- app_assoc.
    + exists [h], hs. split; [done|]. simpl. rewrite Hh.
      unfold called, send_event_calls; simpl. rewrite omap_app. by simpl.
    + exists [h], hs. split; [done|]. simpl. rewrite Hh.
      unfold called, send_event_calls; simpl. rewrite omap_app. by simpl.
Qed.


Lemma manager_returns_bound (hs : list NotificationHandler) (k : EventType)
    (params : gmap string string) (m m' : Machine) :
  NotificationManager_send_event {| handlers := hs |} k params m = (Ok tt, m') →
  params !! "self" = None ∧ params !! "event_type" = None.
Proof.
  unfold NotificationManager_send_event, bind_keywords.
  by destruct (params !! "self"), (params !! "event_type").
Qed.



(** C9: when the [send_event] of a handler raises, [send_event] of
    the manager raises the same exception at once: the handlers
    before it have been called, the handlers after it are not. *)
Theorem manager_propagates_handler_error (pre post : list NotificationHandler)
    (h : NotificationHandler) (k : EventType) (params : gmap string string)
    (m m1 m2 : Machine) (e : pyexn) :
  NotificationManager_send_event {| handlers := pre |} k params m = (Ok tt, m1) →
  NotificationHandler_send_event h k params (called h k params m1) = (Raise e, m2) →
  NotificationManager_send_event {| handlers := pre ++ h :: post |} k params m
  = (Raise e, m2)
  ∧ send_event_calls (trace m2)
    = (send_event_calls (trace m) ++ pre ++ [h])%list.
Proof.
  intros Hpre Hh.
  destruct (manager_returns_bound _ _ _ _ _ Hpre) as [Hself Hev].
  assert (Hloop : ∀ hs, NotificationManager_send_event {| handlers := hs |} k params
                        = send_event_loop hs k params).
  { intros hs. unfold NotificationManager_send_event. by apply bind_keywords_ok. }
  rewrite Hloop in Hpre |- *.
  rewrite send_event_loop_app, Hpre, send_event_loop_cons, Hh.
  split; [done|].
  pose proof (send_event_keeps_calls h k params (called h k params m1)) as Hk.
  rewrite Hh in Hk. simpl in Hk. rewrite Hk.
  destruct (send_event_loop_calls pre k params m)
    as (visited & rest & Heq & Hcalls & Hrest).
  rewrite Hpre in Hcalls, Hrest. simpl in Hcalls, Hrest.
  rewrite (Hrest eq_refl), app_nil_r in Heq. subst visited.
  unfold called, send_event_calls; simpl. rewrite omap_app. simpl.
  fold (send_event_calls (trace m1)). rewrite Hcalls. by rewrite <- app_assoc.
Qed.

Lemma manager_propagates_handler_error_witness :
  ∃ m1 m2,
    NotificationManager_send_event {| handlers := [first_handler] |}
      START ∅ module_machine = (Ok tt, m1)
    ∧ NotificationHandler_send_event down START ∅ (called down START ∅ m1)
      = (Raise (OtherError "ConnectionError"), m2)
    ∧ NotificationManager_send_event
        {| handlers := [first_handler; down; third_handler] |}
        START ∅ module_machine
      = (Raise (OtherError "ConnectionError"), m2)
    ∧ send_event_calls (trace m2) = [first_handler; down]
    ∧ stdout (store m2) = ["[H1] Server started!"].
Proof.
  eexists. eexists.
  split; [vm_compute; reflexivity|]. split; [vm_compute; reflexivity|].
  split; [|split; reflexivity].
  refine (proj1 (manager_propagates_handler_error [first_handler] [third_handler]
                   down START ∅ module_machine _ _ _ _ _));
    vm_compute; reflexivity.
Defined.

(** ** Default arguments *)

Section Defaults.

Variable st : Store.

(** The module executed in [st]: its globals and the store it leaves. *)
#[local] Abbreviation g := (fst (exec_module st)).
#[local] Abbreviation st' := (snd (exec_module st)).

Lemma default_whitelist_contents :
  get_set st' (default_event_whitelist (NotificationHandler__defaults__ g))
  = list_to_set EventType_members
  ∧ get_set st' (default_event_whitelist (QueuedNotificationHandler__defaults__ g))
    = list_to_set EventType_members.
Proof.
  unfold get_set; simpl. split.
  - rewrite lookup_total_insert_ne; [apply lookup_total_insert_eq | lia].
  - apply lookup_total_insert_eq.
Qed.

Lemma default_whitelist_complete (k : EventType) :
  k ∈ get_set st' (default_event_whitelist (NotificationHandler__defaults__ g))
  ∧ k ∈ get_set st' (default_event_whitelist (QueuedNotificationHandler__defaults__ g)).
Proof.
  destruct default_whitelist_contents as [-> ->].
  split; apply elem_of_list_to_set, list_elem_of_In; destruct k; simpl; tauto.
Qed.

Lemma default_formats_contents :
  get_dict st' (DEFAULT_EVENT_FORMATS g) = list_to_map DEFAULT_EVENT_FORMATS_items.
Proof. unfold get_dict; simpl. apply lookup_total_insert_eq. Qed.

(** The default whitelists of the two classes are two objects. *)
Remark default_whitelists_differ :
  default_event_whitelist (NotificationHandler__defaults__ g)
  ≠ default_event_whitelist (QueuedNotificationHandler__defaults__ g).
Proof. simpl. lia. Qed.

(** Discarding from the set at [l] is seen by every reader of [l]. *)
Lemma set_discard_seen (s : Store) (l : loc) (k : EventType) :
  k ∉ get_set (set_discard l k s) l.
Proof.
  unfold get_set at 1, set_discard; simpl.
  rewrite lookup_total_insert_eq.
  intros [_ H]%elem_of_difference. apply H. by apply elem_of_singleton.
Qed.

(** Storing into the dict at [l] is seen by every reader of [l]. *)
Lemma dict_setitem_seen (s : Store) (l : loc) (k : EventType) (v : string) :
  get_dict (dict_setitem l k v s) l !! k = Some v.
Proof.
  unfold get_dict at 1, dict_setitem; simpl.
  rewrite lookup_total_insert_eq. apply lookup_insert_eq.
Qed.

End Defaults.

(** C10, as amended: the defaults of [event_whitelist] and
    [event_formats] are computed once for each [__init__], when the
    module is executed.  Two handlers of one class built with the
    defaults hold the same whitelist object, which contains every
    event type (each of the two classes has a set of its own), and
    all handlers built with the defaults, queued or not, hold the
    dict [DEFAULT_EVENT_FORMATS].
    Discarding an event type from the whitelist of one, or storing a
    template into the formats of one, is seen by the other: it no
    longer lets the event type through, and finds the new template. *)
Theorem default_arguments_are_shared (st : Store) (n1 n2 : option string)
    (k : EventType) (v : string) (params : gmap string string) (tr : list Call) :
  let g := fst (exec_module st) in
  let st1 := snd (exec_module st) in
  let h1 := NotificationHandler__init__ g n1 None None in
  let h2 := NotificationHandler__init__ g n2 None None in
  let q1 := QueuedNotificationHandler__init__ g n1 None None st1 in
  let q2 := QueuedNotificationHandler__init__ g n2 None None (snd q1) in
  (whitelist h1 = whitelist h2 ∧ formats h1 = formats h2)
  ∧ (whitelist (fst q1) = whitelist (fst q2) ∧ formats (fst q1) = formats (fst q2))
  ∧ (formats h1 = DEFAULT_EVENT_FORMATS g ∧ formats (fst q1) = DEFAULT_EVENT_FORMATS g)
  ∧ (get_set st1 (whitelist h1) = list_to_set EventType_members
     ∧ get_set st1 (whitelist (fst q1)) = list_to_set EventType_members
     ∧ (∀ k', k' ∈ get_set st1 (whitelist h1) ∧ k' ∈ get_set st1 (whitelist (fst q1)))
     ∧ get_dict st1 (formats h1) = list_to_map DEFAULT_EVENT_FORMATS_items)
  ∧ ((k ∉ get_set (set_discard (whitelist h1) k st1) (whitelist h2))
     ∧ (params !! "self" = None → params !! "event_type" = None →
        NotificationHandler_send_event h2 k params
          {| store := set_discard (whitelist h1) k st1; trace := tr |}
        = (Ok tt, {| store := set_discard (whitelist h1) k st1; trace := tr |})))
  ∧ (k ∉ get_set (set_discard (whitelist (fst q1)) k (snd q2)) (whitelist (fst q2)))
  ∧ (get_dict (dict_setitem (formats h1) k v st1) (formats h2) !! k = Some v
     ∧ get_dict (dict_setitem (formats h1) k v (snd q2)) (formats (fst q2)) !! k
       = Some v).
Proof.
  intros g st1 h1 h2 q1 q2.
  split; [done|]. split; [done|]. split; [done|].
  split.
  { destruct (default_whitelist_contents st) as [H1 H2].
    split; [exact H1|]. split; [exact H2|].
    split; [intros k'; apply default_whitelist_complete|].
    apply default_formats_contents. }
  split.
  { pose proof (set_discard_seen st1 (whitelist h1) k) as H.
    split; [exact H|]. intros Hself Hev.
    unfold NotificationHandler_send_event. rewrite bind_keywords_ok by done.
    unfold send_event_body, mbind, M_bind, get_store.
    by rewrite decide_False. }
  split; [apply set_discard_seen|].
  split; apply dict_setitem_seen.
Qed.

Lemma default_arguments_are_shared_witness :
  ({["message" := "hello"]} : gmap string string) !! "self" = None
  ∧ ({["message" := "hello"]} : gmap string string) !! "event_type" = None
  ∧ NotificationHandler_send_event box MESSAGE {["message" := "hello"]}
      {| store := set_discard (whitelist first_handler) MESSAGE module_store;
         trace := [] |}
    = (Ok tt,
       {| store := set_discard (whitelist first_handler) MESSAGE module_store;
          trace := [] |}).
Proof.
  assert (Hself : ({["message" := "hello"]} : gmap string string) !! "self" = None)
    by reflexivity.
  assert (Hev : ({["message" := "hello"]} : gmap string string) !! "event_type"
                = None)
    by reflexivity.
  split; [exact Hself|]. split; [exact Hev|].
  destruct (default_arguments_are_shared empty_store (Some "H1") (Some "Box")
              MESSAGE "" {["message" := "hello"]} [])
    as (_ & _ & _ & _ & [_ H] & _).
  exact (H Hself Hev).
Defined.

(** C10 as stated fails: a default [NotificationHandler] and a
    default [QueuedNotificationHandler] hold two different whitelist
    sets; after [MESSAGE] is discarded through the first, the second
    still has it. *)
Lemma default_whitelist_not_shared_across_classes :
  whitelist first_handler ≠ whitelist queued_box
  ∧ (MESSAGE ∉ get_set (set_discard (whitelist first_handler) MESSAGE queued_box_store)
               (whitelist first_handler))
  ∧ MESSAGE ∈ get_set (set_discard (whitelist first_handler) MESSAGE queued_box_store)
                (whitelist queued_box).
Proof.
  split; [by vm_compute|]. split.
  - apply (bool_decide_unpack
             (MESSAGE ∉ get_set
                (set_discard (whitelist first_handler) MESSAGE queued_box_store)
                (whitelist first_handler))).
    vm_compute. exact I.
  - apply (bool_decide_unpack
             (MESSAGE ∈ get_set
                (set_discard (whitelist first_handler) MESSAGE queued_box_store)
                (whitelist queued_box))).
    vm_compute. exact I.
Qed.

(** The mutation seen at work: after [MESSAGE] is discarded through
    one default handler, another one prints nothing for it. *)
Example shared_whitelist_mutation :
  stdout (store (NotificationHandler_send_event first_handler MESSAGE
                   {["message" := "hello"]} module_machine).2)
  = ["[H1] hello"]
  ∧ stdout (store (NotificationHandler_send_event first_handler MESSAGE
                     {["message" := "hello"]}
                     {| store := set_discard (whitelist box) MESSAGE module_store;
                        trace := [] |}).2)
    = [].
Proof. split; reflexivity. Qed.

(** ** The worker thread *)

Lemma deliveries_app (cur : option Event) (tr1 tr2 : list Label) :
  deliveries cur (tr1 ++ tr2)
  = match deliveries cur tr1 with
    | Some c => deliveries c tr2
    | None => None
    end.
Proof.
  revert cur. induction tr1 as [|l tr1 IH]; intros cur; [done|].
  destruct l, cur; simpl; try apply IH; try done.
  all: case_decide; [apply IH | done].
Qed.

Lemma puts_app (tr1 tr2 : list Label) :
  puts (tr1 ++ tr2) = (puts tr1 ++ puts tr2)%list.
Proof. apply omap_app. Qed.

Lemma begun_app (tr1 tr2 : list Label) :
  begun (tr1 ++ tr2) = (begun tr1 ++ begun tr2)%list.
Proof. apply omap_app. Qed.

Lemma returned_app (tr1 tr2 : list Label) :
  returned (tr1 ++ tr2) = (returned tr1 ++ returned tr2)%list.
Proof. apply omap_app. Qed.

Lemma ended_app (tr1 tr2 : list Label) :
  ended (tr1 ++ tr2) = (ended tr1 ++ ended tr2)%list.
Proof. apply omap_app. Qed.

Section WorkerProperties.

Variable callback : Sink.

Lemma steps_cons (s s' s'' : System) (l : Label) (tr : list Label) :
  step callback s l s' → steps callback s' tr s'' → steps callback s (l :: tr) s''.
Proof.
  intros Hstep Hsteps. induction Hsteps as [s'|s' tr s1 l' s2 _ IH Hl].
  - apply (steps_snoc callback s [] s l s'); [constructor | done].
  - apply (steps_snoc callback s (l :: tr) s1 l' s2); [by apply IH | done].
Qed.

Lemma steps_app (s s' s'' : System) (tr tr' : list Label) :
  steps callback s tr s' → steps callback s' tr' s'' → steps callback s (tr ++ tr') s''.
Proof.
  intros H1 H2. induction H2 as [|s' tr' s1 l s2 _ IH Hl].
  - by rewrite app_nil_r.
  - rewrite app_assoc. eapply steps_snoc; [by apply IH | done].
Qed.

(** The worker running alone is an execution of the system. *)
Lemma worker_run_steps (n : nat) (s : System) :
  steps callback s (worker_run callback n s).1 (worker_run callback n s).2.
Proof.
  revert s. induction n as [|n IH]; intros s; simpl; [constructor|].
  destruct (worker_step callback s) as [[l s']|] eqn:E; [|constructor].
  specialize (IH s'). destruct (worker_run callback n s') as [tr s''].
  simpl in *. eapply steps_cons; [by apply step_worker | done].
Qed.

Lemma invariant_step (tr : list Label) (s s' : System) (l : Label) :
  invariant tr s → step callback s l s' → invariant (tr ++ [l]) s'.
Proof.
  intros (Hputs & Hdel & Hget) Hstep.
  unfold invariant.
  rewrite puts_app, begun_app, deliveries_app, Hdel, Hputs.
  destruct Hstep as [s event|s n Hn|s l s' Hw].
  - unfold in_hand, in_flight; simpl.
    split; [by rewrite app_nil_r, <- !app_assoc|]. split; [done|].
    intros Hpc. by destruct (event_queue (thread s)).
  - unfold in_hand, in_flight; simpl. by rewrite !app_nil_r.
  - unfold worker_step in Hw. unfold in_hand, in_flight in *.
    destruct s as [[q wake] pc ns w]; simpl in *.
    destruct pc as [| |e|e| | |e]; simpl in *.
    + destruct q; simplify_eq; simpl; by rewrite !app_nil_r.
    + destruct q as [|e q]; [by destruct Hget|]. simplify_eq; simpl.
      by rewrite !app_nil_r.
    + simplify_eq; simpl. by rewrite app_nil_r, <- app_assoc.
    + destruct (callback e.1 e.2 w) as [[[]| |] w']; simplify_eq; simpl;
        rewrite !app_nil_r, decide_True by done; done.
    + simplify_eq; simpl. by rewrite !app_nil_r.
    + simplify_eq; simpl. by rewrite !app_nil_r.
    + done.
Qed.

Lemma invariant_steps (w : Store) (tr : list Label) (s : System) :
  steps callback (initial w) tr s → invariant tr s.
Proof.
  intros H. remember (initial w) as s0 eqn:Hs0.
  induction H as [s|s tr s' l s'' _ IH Hl]; subst.
  - done.
  - eapply invariant_step; [by apply IH | done].
Qed.

Lemma effects_step (w : Store) (tr : list Label) (s s' : System) (l : Label) :
  effects callback w tr s → step callback s l s' → effects callback w (tr ++ [l]) s'.
Proof.
  intros [Hw Hb] Hstep. unfold effects.
  rewrite ended_app, begun_app, Hb. unfold run_callbacks in *.
  rewrite foldl_app, <- Hw. clear Hw Hb.
  destruct Hstep as [s event|s n Hn|s l s' Hstep].
  - unfold in_flight; simpl. by rewrite !app_nil_r.
  - unfold in_flight; simpl. by rewrite !app_nil_r.
  - unfold worker_step in Hstep. unfold in_flight in *.
    destruct s as [[q wake] pc ns w0]; simpl in *.
    destruct pc as [| |e|e| | |e]; simpl in *.
    + destruct q; simplify_eq; simpl; by rewrite !app_nil_r.
    + destruct q; simplify_eq; simpl; by rewrite !app_nil_r.
    + simplify_eq; simpl. by rewrite !app_nil_r.
    + destruct (callback e.1 e.2 w0) as [[[]| |] w'] eqn:E; simplify_eq; simpl;
        by rewrite E, app_nil_r.
    + simplify_eq; simpl. by rewrite !app_nil_r.
    + simplify_eq; simpl. by rewrite !app_nil_r.
    + done.
Qed.

Lemma effects_steps (w : Store) (tr : list Label) (s : System) :
  steps callback (initial w) tr s → effects callback w tr s.
Proof.
  intros H. remember (initial w) as s0 eqn:Hs0.
  induction H as [s|s tr s' l s'' _ IH Hl]; subst.
  - done.
  - eapply effects_step; [by apply IH | done].
Qed.

(** Once [run] has been left, it stays left: nothing is delivered
    any more, and the queue only grows. *)
Lemma terminated_forever (s s' : System) (tr : list Label) (e : pyexn) :
  worker s = Terminated e →
  steps callback s tr s' →
  worker s' = Terminated e
  ∧ begun tr = []
  ∧ worker_step callback s' = None
  ∧ ∃ more, event_queue (thread s') = (event_queue (thread s) ++ more)%list.
Proof.
  intros Hpc Hsteps. induction Hsteps as [s|s tr s' l s'' _ IH Hl].
  - unfold worker_step. rewrite Hpc.
    repeat split; try done. exists []. by rewrite app_nil_r.
  - destruct (IH Hpc) as (Hpc' & Hb & Hw & more & Hq).
    unfold begun in *. rewrite omap_app, Hb.
    destruct Hl as [s' event|s' n Hn|s' l s'' Hstep].
    + unfold worker_step; simpl. rewrite Hpc'.
      repeat split; try done.
      exists (more ++ [event])%list. by rewrite Hq, app_assoc.
    + unfold worker_step; simpl. rewrite Hpc'.
      repeat split; try done. by exists more.
    + congruence.
Qed.

(** ** Progress of the worker when deliveries return *)

Section Returning.

Hypothesis callback_returns : ∀ k message st, (callback k message st).1 = Ok tt.

Lemma callback_result (k : EventType) (message : string) (st : Store) :
  callback k message st = (Ok tt, (callback k message st).2).
Proof.
  pose proof (callback_returns k message st) as H.
  destruct (callback k message st) as [r st']. simpl in *. by subst.
Qed.

(** The worker is never ended, and every delivery begun has
    returned, except the one under way. *)
Lemma returning_invariant (w : Store) (tr : list Label) (s : System) :
  steps callback (initial w) tr s →
  (∀ e, worker s ≠ Terminated e)
  ∧ begun tr = (returned tr ++ option_list (in_flight s))%list.
Proof.
  intros H. remember (initial w) as s0 eqn:Hs0.
  induction H as [s|s tr s' l s'' _ IH Hl]; subst; [done|].
  destruct (IH eq_refl) as [Hpc Hb]. clear IH.
  rewrite begun_app, returned_app, Hb.
  destruct Hl as [s' event|s' n Hn|s' l s'' Hw].
  - unfold in_flight; simpl. by rewrite !app_nil_r.
  - unfold in_flight; simpl. by rewrite !app_nil_r.
  - unfold worker_step in Hw. unfold in_flight in *.
    destruct s' as [[q wake] pc ns w']; simpl in *.
    destruct pc as [| |e|e| | |e]; simpl in *.
    + destruct q; simplify_eq; simpl; by rewrite !app_nil_r.
    + destruct q; simplify_eq; simpl; by rewrite !app_nil_r.
    + simplify_eq; simpl. by rewrite !app_nil_r.
    + rewrite callback_result in Hw. simplify_eq; simpl. by rewrite !app_nil_r.
    + simplify_eq; simpl. by rewrite !app_nil_r.
    + simplify_eq; simpl. by rewrite !app_nil_r.
    + by destruct (Hpc e).
Qed.

(** No delivery raises: those that ended are those that returned. *)
Lemma returning_ended (w : Store) (tr : list Label) (s : System) :
  steps callback (initial w) tr s → ended tr = returned tr.
Proof.
  intros H. remember (initial w) as s0 eqn:Hs0.
  induction H as [s|s tr s' l s'' _ IH Hl]; subst; [done|].
  rewrite ended_app, returned_app, (IH eq_refl). f_equal.
  destruct Hl as [s' event|s' n Hn|s' l s'' Hw]; [done..|].
  unfold worker_step in Hw.
  destruct s' as [[q wake] pc ns w']; simpl in *.
  destruct pc as [| |e|e| | |e]; simpl in *.
  - destruct q; by simplify_eq.
  - destruct q; by simplify_eq.
  - by simplify_eq.
  - rewrite callback_result in Hw. by simplify_eq.
  - by simplify_eq.
  - by simplify_eq.
  - done.
Qed.

Lemma worker_run_step (n : nat) (s s' : System) (l : Label) :
  worker_step callback s = Some (l, s') →
  worker_run callback (S n) s
  = (l :: (worker_run callback n s').1, (worker_run callback n s').2).
Proof.
  intros H. simpl. rewrite H. by destruct (worker_run callback n s').
Qed.

(** From the top of the loop, four steps deliver the oldest item. *)
Lemma drain_from_loop (q : list Event) (wake : bool) (ns : nat) (w : Store) :
  ∃ n,
    drained None q
      (worker_run callback n
         {| thread := {| event_queue := q; wakeup_event := wake |};
            worker := AtLoop; setters := ns; world := w |}).
Proof.
  revert w. induction q as [|e q IH]; intros w.
  - by exists 0.
  - destruct (IH (callback e.1 e.2 w).2) as (n & Hpc & Hq & Hputs & Hb & Hr & Hd).
    exists (4 + n).
    change (4 + n) with (S (S (S (S n)))).
    erewrite worker_run_step; [|reflexivity].
    erewrite worker_run_step; [|reflexivity].
    erewrite worker_run_step; [|reflexivity].
    erewrite worker_run_step;
      [|unfold worker_step; simpl; by rewrite callback_result].
    unfold drained; simpl. rewrite decide_True by done.
    repeat split; try done; by f_equal.
Qed.

(** From wherever the worker stands, it empties the queue. *)
Lemma drain (s : System) :
  (∀ e, worker s ≠ Terminated e) →
  (worker s = AtGet → event_queue (thread s) ≠ []) →
  ∃ n,
    drained (in_flight s) (in_hand s ++ event_queue (thread s))
      (worker_run callback n s).
Proof.
  intros Hpc Hget.
  destruct s as [[q wake] pc ns w]; unfold in_flight, in_hand; simpl in *.
  destruct pc as [| |e|e| | |e].
  - apply drain_from_loop.
  - destruct q as [|e q]; [by destruct Hget|].
    destruct (drain_from_loop q wake ns (callback e.1 e.2 w).2)
      as (n & Hpc' & Hq & Hputs & Hb & Hr & Hd).
    exists (3 + n). change (3 + n) with (S (S (S n))).
    erewrite worker_run_step; [|reflexivity].
    erewrite worker_run_step; [|reflexivity].
    erewrite worker_run_step;
      [|unfold worker_step; simpl; by rewrite callback_result].
    unfold drained; simpl. rewrite decide_True by done.
    repeat split; try done; by f_equal.
  - destruct (drain_from_loop q wake ns (callback e.1 e.2 w).2)
      as (n & Hpc' & Hq & Hputs & Hb & Hr & Hd).
    exists (2 + n). change (2 + n) with (S (S n)).
    erewrite worker_run_step; [|reflexivity].
    erewrite worker_run_step;
      [|unfold worker_step; simpl; by rewrite callback_result].
    unfold drained; simpl. rewrite decide_True by done.
    repeat split; try done; by f_equal.
  - destruct (drain_from_loop q wake ns (callback e.1 e.2 w).2)
      as (n & Hpc' & Hq & Hputs & Hb & Hr & Hd).
    exists (1 + n). change (1 + n) with (S n).
    erewrite worker_run_step;
      [|unfold worker_step; simpl; by rewrite callback_result].
    unfold drained; simpl. rewrite decide_True by done.
    repeat split; try done; by f_equal.
  - destruct (drain_from_loop q false ns w) as (n & H).
    exists (2 + n). change (2 + n) with (S (S n)).
    erewrite worker_run_step; [|reflexivity].
    erewrite worker_run_step; [|reflexivity].
    exact H.
  - destruct (drain_from_loop q false ns w) as (n & H).
    exists (1 + n). change (1 + n) with (S n).
    erewrite worker_run_step; [|reflexivity].
    exact H.
  - by destruct (Hpc e).
Qed.

End Returning.

End WorkerProperties.

(** C1: in every execution of one queued handler with any number of
    producers, the deliveries begin in the order in which the items
    were put: what was put is what was delivered, then the item the
    worker holds, then the queue; no delivery begins while another is
    under way.  The deliveries are calls of the callback: the store
    is what the callback made of the initial store, called on the
    deliveries that ended, one after the other in that order, and the
    deliveries begun are those, then the one under way.  When
    deliveries return, the worker, left alone, delivers everything
    that was put, in that order, and leaves the store the callback
    makes when called on all that was put, in the order of the
    puts. *)
Theorem worker_delivers_in_fifo_order (callback : Sink) (w : Store)
    (tr : list Label) (s : System) :
  steps callback (initial w) tr s →
  begun tr `prefix_of` puts tr
  ∧ puts tr = (begun tr ++ in_hand s ++ event_queue (thread s))%list
  ∧ non_overlapping tr
  ∧ begun tr = (ended tr ++ option_list (in_flight s))%list
  ∧ world s = run_callbacks callback w (ended tr)
  ∧ ((∀ k message st, (callback k message st).1 = Ok tt) →
     ∃ n,
       steps callback (initial w) (tr ++ (worker_run callback n s).1)
         (worker_run callback n s).2
       ∧ puts (tr ++ (worker_run callback n s).1) = puts tr
       ∧ begun (tr ++ (worker_run callback n s).1) = puts tr
       ∧ returned (tr ++ (worker_run callback n s).1) = puts tr
       ∧ non_overlapping (tr ++ (worker_run callback n s).1)
       ∧ world (worker_run callback n s).2 = run_callbacks callback w (puts tr)).
Proof.
  intros Hsteps.
  destruct (invariant_steps callback w tr s Hsteps) as (Hputs & Hdel & Hget).
  destruct (effects_steps callback w tr s Hsteps) as [Hworld Hended].
  split; [rewrite Hputs; by eexists|]. split; [done|].
  split; [unfold non_overlapping; by rewrite Hdel|].
  split; [done|]. split; [done|].
  intros Hcb.
  destruct (returning_invariant callback Hcb w tr s Hsteps) as [Hpc Hb].
  destruct (drain callback Hcb s Hpc Hget) as (n & _ & _ & Hp & Hb' & Hr & Hd).
  exists n.
  assert (Hall : steps callback (initial w) (tr ++ (worker_run callback n s).1)
                   (worker_run callback n s).2)
    by (eapply steps_app; [done | apply worker_run_steps]).
  assert (Hreturned : returned (tr ++ (worker_run callback n s).1) = puts tr)
    by (by rewrite returned_app, Hr, Hputs, Hb, <- !app_assoc).
  split; [done|].
  destruct (effects_steps callback w _ _ Hall) as [Hworld' _].
  rewrite Hworld', (returning_ended callback Hcb w _ _ Hall), Hreturned.
  rewrite puts_app, begun_app, Hp, Hb', app_nil_r.
  unfold non_overlapping. rewrite deliveries_app, Hdel, Hd.
  split; [done|]. split; [by rewrite Hputs|]. done.
Qed.

Lemma worker_delivers_in_fifo_order_witness :
  steps QueuedNotificationHandler__handle_message (initial empty_store)
    [LPut started; LEmpty false; LPut crashed; LSet; LGet started;
     LPut stopped; LBegin started] busy_system
  ∧ (∀ k message st,
       (QueuedNotificationHandler__handle_message k message st).1 = Ok tt)
  ∧ ∃ n,
      returned
        ([LPut started; LEmpty false; LPut crashed; LSet; LGet started;
          LPut stopped; LBegin started]
         ++ (worker_run QueuedNotificationHandler__handle_message n busy_system).1)
      = [started; crashed; stopped]
      ∧ stdout (world (worker_run QueuedNotificationHandler__handle_message n
                         busy_system).2)
        = [started.2; crashed.2; stopped.2].
Proof.
  assert (Hsteps :
    steps QueuedNotificationHandler__handle_message (initial empty_store)
      [LPut started; LEmpty false; LPut crashed; LSet; LGet started;
       LPut stopped; LBegin started] busy_system).
  { eapply steps_cons; [apply step_put|].
    eapply steps_cons; [apply step_worker; reflexivity|].
    eapply steps_cons; [apply step_put|].
    eapply steps_cons; [eapply step_set; reflexivity|].
    eapply steps_cons; [apply step_worker; reflexivity|].
    eapply steps_cons; [apply step_put|].
    eapply steps_cons; [apply step_worker; reflexivity|].
    apply steps_nil. }
  assert (Hcb : ∀ k message st,
    (QueuedNotificationHandler__handle_message k message st).1 = Ok tt)
    by reflexivity.
  split; [exact Hsteps|]. split; [exact Hcb|].
  destruct (worker_delivers_in_fifo_order _ _ _ _ Hsteps)
    as (_ & _ & _ & _ & _ & Hlive).
  destruct (Hlive Hcb) as (n & _ & _ & _ & Hr & _ & Hworld).
  exists n. split; [exact Hr|]. rewrite Hworld. reflexivity.
Defined.

(** The base class delivers by printing: the three messages come
    out in the order in which they were put. *)
Example worker_prints_in_order :
  stdout (world (worker_run QueuedNotificationHandler__handle_message 9
                   busy_system).2)
  = [started.2; crashed.2; stopped.2].
Proof. reflexivity. Qed.

(** C2, as amended: an exception raised by a delivery is not caught
    by [run]: it ends the worker, and from then on nothing is
    delivered, neither what is queued nor what is put later.  A
    delivery that returns takes the worker back to the top of the
    loop, with the queue as it was. *)
Theorem worker_ends_on_delivery_error (callback : Sink) (s : System)
    (event : Event) :
  worker s = InCallback event →
  (∀ e st, callback event.1 event.2 (world s) = (Raise e, st) →
     ∃ s', worker_step callback s = Some (LRaise event e, s')
       ∧ worker s' = Terminated e
       ∧ event_queue (thread s') = event_queue (thread s)
       ∧ ∀ tr s'', steps callback s' tr s'' →
           worker s'' = Terminated e
           ∧ begun tr = []
           ∧ worker_step callback s'' = None
           ∧ ∃ more,
               event_queue (thread s'') = (event_queue (thread s) ++ more)%list)
  ∧ (∀ st, callback event.1 event.2 (world s) = (Ok tt, st) →
     ∃ s', worker_step callback s = Some (LReturn event, s')
       ∧ worker s' = AtLoop
       ∧ event_queue (thread s') = event_queue (thread s)).
Proof.
  intros Hpc. split.
  - intros e st Hcall. unfold worker_step. rewrite Hpc, Hcall.
    eexists. split; [reflexivity|]. split; [done|]. split; [done|].
    intros tr s'' Hsteps.
    by apply (terminated_forever callback _ s'' tr e) in Hsteps.
  - intros st Hcall. unfold worker_step. rewrite Hpc, Hcall.
    eexists. by split.
Qed.

Lemma worker_ends_on_delivery_error_witness :
  worker delivering_system = InCallback started
  ∧ failing_sink started.1 started.2 (world delivering_system)
    = (Raise (OtherError "ConnectionError"), empty_store)
  ∧ ∃ s',
      worker_step failing_sink delivering_system
      = Some (LRaise started (OtherError "ConnectionError"), s')
      ∧ worker s' = Terminated (OtherError "ConnectionError")
      ∧ event_queue (thread s') = [stopped].
Proof.
  split; [reflexivity|]. split; [reflexivity|].
  destruct (proj1 (worker_ends_on_delivery_error failing_sink delivering_system
                     started eq_refl)
              (OtherError "ConnectionError") empty_store eq_refl)
    as (s' & Hstep & Hpc & Hq & _).
  exists s'. split; [exact Hstep|]. split; [exact Hpc|]. exact Hq.
Defined.

(** C2 as stated fails: with a sink that raises, the first delivery
    ends the worker while the second notification is still queued;
    whatever happens afterwards, nothing is delivered and the worker
    cannot move. *)
Lemma worker_does_not_survive_failure :
  steps failing_sink (initial empty_store)
    [LPut started; LPut stopped; LEmpty false; LGet started; LBegin started;
     LRaise started (OtherError "ConnectionError")] dead_system
  ∧ event_queue (thread dead_system) = [stopped]
  ∧ ∀ tr s, steps failing_sink dead_system tr s →
      begun tr = [] ∧ worker_step failing_sink s = None
      ∧ ∃ more, event_queue (thread s) = (stopped :: more)%list.
Proof.
  split.
  { eapply steps_cons; [apply step_put|].
    eapply steps_cons; [apply step_put|].
    eapply steps_cons; [apply step_worker; reflexivity|].
    eapply steps_cons; [apply step_worker; reflexivity|].
    eapply steps_cons; [apply step_worker; reflexivity|].
    eapply steps_cons; [apply step_worker; reflexivity|].
    apply steps_nil. }
  split; [reflexivity|].
  intros tr s Hsteps.
  destruct (terminated_forever failing_sink dead_system s tr _ eq_refl Hsteps)
    as (_ & Hb & Hw & more & Hq).
  split; [done|]. split; [done|]. by exists more.
Qed.

(** ** [get_logfile_path] *)

Lemma startswith_sep_append (a b : string) :
  startswith_sep (a +:+ b)
  = match a with "" => startswith_sep b | _ => startswith_sep a end.
Proof. by destruct a. Qed.

(** Joining a name that is not absolute keeps the directory in
    front. *)
Lemma os_path_join_relative (a b : string) :
  startswith_sep b = false →
  os_path_join a b = a +:+ b ∨ os_path_join a b = a +:+ "/" +:+ b.
Proof.
  intros Hb. unfold os_path_join. rewrite Hb.
  destruct (match a with "" => true | _ => endswith_sep a end); auto.
Qed.

(** Joining an absolute name drops the directory. *)
Lemma os_path_join_absolute (a b : string) :
  startswith_sep b = true → os_path_join a b = b.
Proof. intros Hb. unfold os_path_join. by rewrite Hb. Qed.

Section LogFileSearch.

Variable fs : FileSystem.
Variables log_path log_filename ending : string.

#[local] Abbreviation body := (logfile_loop fs log_path log_filename ending).
#[local] Abbreviation cand := (candidate log_path log_filename ending).
#[local] Abbreviation start := (Searching 1 (cand 0)).

Lemma iter_finished (m : N) (r : outcome string) :
  N.iter m body (Finished r) = Finished r.
Proof.
  induction m as [|m IH] using N.peano_ind; [done|].
  by rewrite N.iter_succ, IH.
Qed.

(** While every path tried so far exists, the loop goes on to the
    next numbered path. *)
Lemma iter_searching (m : N) :
  (m ≤ 1000000)%N →
  (∀ j, (j < m)%N → path_exists fs (cand j) = true) →
  N.iter m body start = Searching (m + 1) (cand m).
Proof.
  induction m as [|m IH] using N.peano_ind; intros Hm Hex; [done|].
  rewrite N.iter_succ, IH by (try lia; intros j Hj; apply Hex; lia).
  unfold logfile_loop. rewrite (Hex m) by lia.
  replace (1000000 <? m + 1)%N with false by (symmetry; apply N.ltb_ge; lia).
  f_equal; [lia|]. unfold candidate.
  replace (N.succ m =? 0)%N with false by (symmetry; apply N.eqb_neq; lia).
  by replace (N.succ m) with (m + 1)%N by lia.
Qed.

(** The loop is left with the first path that does not exist. *)
Lemma iter_found (j m : N) :
  (j ≤ 1000000)%N →
  (∀ j', (j' < j)%N → path_exists fs (cand j') = true) →
  path_exists fs (cand j) = false →
  (j < m)%N →
  N.iter m body start = Finished (Ok (cand j)).
Proof.
  intros Hj Hex Hfree Hm.
  replace m with ((m - N.succ j) + N.succ j)%N by lia.
  rewrite N.iter_add, N.iter_succ, (iter_searching j Hj Hex).
  unfold logfile_loop at 2. rewrite Hfree. apply iter_finished.
Qed.

(** When all the paths exist, the loop is left by the failsafe. *)
Lemma iter_exhausted :
  (∀ j, (j ≤ 1000000)%N → path_exists fs (cand j) = true) →
  N.iter 1000001 body start = Finished (Raise FileExistsError).
Proof.
  intros Hex.
  change 1000001%N with (N.succ 1000000).
  rewrite N.iter_succ, (iter_searching 1000000) by (try lia; intros; apply Hex; lia).
  unfold logfile_loop. by rewrite (Hex 1000000%N) by lia.
Qed.

(** Below any bound, either all the paths exist or there is a first
    one that does not. *)
Lemma first_free (n : N) :
  (∀ j, (j < n)%N → path_exists fs (cand j) = true)
  ∨ ∃ j, (j < n)%N ∧ path_exists fs (cand j) = false
         ∧ ∀ j', (j' < j)%N → path_exists fs (cand j') = true.
Proof.
  induction n as [|n IH] using N.peano_ind; [left; intros; lia|].
  destruct IH as [Hall|(j & Hj & Hfree & Hbefore)].
  - destruct (path_exists fs (cand n)) eqn:E.
    + left. intros j Hj. destruct (decide (j = n)) as [->|]; [done|].
      apply Hall. lia.
    + right. exists n. split; [lia|]. by split.
  - right. exists j. split; [lia|]. by split.
Qed.

(** The three ways the loop can end. *)
Lemma iter_outcome :
  (N.iter 1000001 body start = Finished (Raise FileExistsError)
   ∧ ∀ j, (j ≤ 1000000)%N → path_exists fs (cand j) = true)
  ∨ ∃ j, (j ≤ 1000000)%N
         ∧ N.iter 1000001 body start = Finished (Ok (cand j))
         ∧ path_exists fs (cand j) = false
         ∧ ∀ j', (j' < j)%N → path_exists fs (cand j') = true.
Proof.
  destruct (first_free 1000001) as [Hall|(j & Hj & Hfree & Hbefore)].
  - left. split; [apply iter_exhausted|]; intros; apply Hall; lia.
  - right. exists j. split; [lia|].
    split; [apply iter_found; try done; lia|]. by split.
Qed.

End LogFileSearch.

Lemma get_logfile_path_not_dir (fs : FileSystem) (datetime_string log_path : string)
    (base_filename : option string) (ending : string) :
  isdir fs log_path = false →
  get_logfile_path fs datetime_string log_path base_filename ending
  = Raise ValueError.
Proof. intros H. unfold get_logfile_path. by rewrite H. Qed.

Lemma get_logfile_path_dir (fs : FileSystem) (datetime_string log_path : string)
    (base_filename : option string) (ending : string) :
  isdir fs log_path = true →
  get_logfile_path fs datetime_string log_path base_filename ending
  = search_result
      (N.iter 1000001
         (logfile_loop fs log_path
            (log_filename_of datetime_string base_filename) ending)
         (Searching 1
            (candidate log_path
               (log_filename_of datetime_string base_filename) ending 0))).
Proof. intros H. unfold get_logfile_path. rewrite H. reflexivity. Qed.

(** [get_logfile_path] in terms of the paths it tries. *)
Lemma get_logfile_path_outcome (fs : FileSystem) (datetime_string log_path : string)
    (base_filename : option string) (ending : string) :
  let cand := candidate log_path (log_filename_of datetime_string base_filename) ending in
  (isdir fs log_path = false
   ∧ get_logfile_path fs datetime_string log_path base_filename ending
     = Raise ValueError)
  ∨ (isdir fs log_path = true
     ∧ get_logfile_path fs datetime_string log_path base_filename ending
       = Raise FileExistsError
     ∧ ∀ j, (j ≤ 1000000)%N → path_exists fs (cand j) = true)
  ∨ (isdir fs log_path = true
     ∧ ∃ j, (j ≤ 1000000)%N
            ∧ get_logfile_path fs datetime_string log_path base_filename ending
              = Ok (cand j)
            ∧ path_exists fs (cand j) = false
            ∧ ∀ j', (j' < j)%N → path_exists fs (cand j') = true).
Proof.
  intros cand.
  destruct (isdir fs log_path) eqn:Hdir.
  - right. rewrite (get_logfile_path_dir _ _ _ _ _ Hdir).
    destruct (iter_outcome fs log_path
                (log_filename_of datetime_string base_filename) ending)
      as [[Hiter Hall]|(j & Hj & Hiter & Hfree & Hbefore)].
    + left. rewrite Hiter. split; [reflexivity|]. split; [reflexivity|exact Hall].
    + right. rewrite Hiter. split; [reflexivity|]. exists j.
      split; [exact Hj|]. split; [reflexivity|]. split; [exact Hfree|exact Hbefore].
  - left. split; [reflexivity|]. by apply get_logfile_path_not_dir.
Qed.

Lemma get_logfile_path_found (fs : FileSystem) (datetime_string log_path : string)
    (base_filename : option string) (ending : string) (j : N) :
  let cand := candidate log_path (log_filename_of datetime_string base_filename) ending in
  isdir fs log_path = true →
  (j ≤ 1000000)%N →
  (∀ j', (j' < j)%N → path_exists fs (cand j') = true) →
  path_exists fs (cand j) = false →
  get_logfile_path fs datetime_string log_path base_filename ending = Ok (cand j).
Proof.
  intros cand Hdir Hj Hbefore Hfree.
  rewrite (get_logfile_path_dir _ _ _ _ _ Hdir).
  rewrite (iter_found fs log_path _ ending j 1000001 Hj Hbefore Hfree) by lia.
  reflexivity.
Qed.

Lemma one_log_fs_result :
  get_logfile_path one_log_fs "2024-01-02" "logs" (Some "astrotux") "log"
  = Ok "logs/astrotux_2024-01-02_1.log".
Proof.
  apply (get_logfile_path_found one_log_fs "2024-01-02" "logs" (Some "astrotux")
           "log" 1); [reflexivity | lia | | reflexivity].
  intros j' Hj'. replace j' with 0%N by lia. reflexivity.
Defined.

(** X1: the path that [get_logfile_path] returns does not exist. *)
Theorem get_logfile_path_is_new (fs : FileSystem) (datetime_string log_path : string)
    (base_filename : option string) (ending p : string) :
  get_logfile_path fs datetime_string log_path base_filename ending = Ok p →
  path_exists fs p = false.
Proof.
  intros H.
  destruct (get_logfile_path_outcome fs datetime_string log_path base_filename ending)
    as [[_ E]|[(_ & E & _)|(_ & j & _ & E & Hfree & _)]];
    rewrite E in H; [discriminate H | discriminate H |].
  injection H as <-. exact Hfree.
Qed.

Lemma get_logfile_path_is_new_witness :
  get_logfile_path one_log_fs "2024-01-02" "logs" (Some "astrotux") "log"
  = Ok "logs/astrotux_2024-01-02_1.log"
  ∧ path_exists one_log_fs "logs/astrotux_2024-01-02_1.log" = false.
Proof.
  split; [exact one_log_fs_result|].
  exact (get_logfile_path_is_new _ _ _ _ _ _ one_log_fs_result).
Defined.

(** X2: the path returned is the first of the paths tried, the plain
    one and then the numbered ones up to 1000000, that does not
    exist: every path before it exists. *)
Theorem get_logfile_path_first_free (fs : FileSystem) (datetime_string log_path : string)
    (base_filename : option string) (ending p : string) :
  get_logfile_path fs datetime_string log_path base_filename ending = Ok p →
  ∃ j, (j ≤ 1000000)%N
       ∧ p = candidate log_path (log_filename_of datetime_string base_filename) ending j
       ∧ ∀ j', (j' < j)%N →
           path_exists fs
             (candidate log_path (log_filename_of datetime_string base_filename)
                ending j') = true.
Proof.
  intros H.
  destruct (get_logfile_path_outcome fs datetime_string log_path base_filename ending)
    as [[_ E]|[(_ & E & _)|(_ & j & Hj & E & _ & Hbefore)]];
    rewrite E in H; [discriminate H | discriminate H |].
  injection H as <-. exists j. by split.
Qed.

Lemma get_logfile_path_first_free_witness :
  get_logfile_path one_log_fs "2024-01-02" "logs" (Some "astrotux") "log"
  = Ok "logs/astrotux_2024-01-02_1.log"
  ∧ ∃ j, (j ≤ 1000000)%N
         ∧ "logs/astrotux_2024-01-02_1.log"
           = candidate "logs" (log_filename_of "2024-01-02" (Some "astrotux")) "log" j
         ∧ ∀ j', (j' < j)%N →
             path_exists one_log_fs
               (candidate "logs" (log_filename_of "2024-01-02" (Some "astrotux"))
                  "log" j') = true.
Proof.
  split; [exact one_log_fs_result|].
  exact (get_logfile_path_first_free _ _ _ _ _ _ one_log_fs_result).
Defined.

(** X3: [get_logfile_path] raises [FileExistsError] exactly when
    [log_path] is a directory and the plain path and the paths
    numbered 1 to 1000000 all exist. *)
Theorem get_logfile_path_exhausted (fs : FileSystem) (datetime_string log_path : string)
    (base_filename : option string) (ending : string) :
  get_logfile_path fs datetime_string log_path base_filename ending
  = Raise FileExistsError
  ↔ isdir fs log_path = true
    ∧ ∀ j, (j ≤ 1000000)%N →
        path_exists fs
          (candidate log_path (log_filename_of datetime_string base_filename)
             ending j) = true.
Proof.
  destruct (get_logfile_path_outcome fs datetime_string log_path base_filename ending)
    as [[Hdir E]|[(Hdir & E & Hall)|(Hdir & j & Hj & E & Hfree & _)]];
    rewrite E; split.
  - discriminate.
  - intros [H _]. congruence.
  - done.
  - done.
  - discriminate.
  - intros [_ H]. rewrite (H j Hj) in Hfree. discriminate Hfree.
Qed.

Lemma get_logfile_path_exhausted_witness :
  get_logfile_path full_fs "2024-01-02" "logs" (Some "astrotux") "log"
  = Raise FileExistsError.
Proof.
  apply (get_logfile_path_exhausted full_fs "2024-01-02" "logs" (Some "astrotux") "log").
  split; [reflexivity|]. intros j _. reflexivity.
Defined.

(** X4: [get_logfile_path] always comes to an end, within the
    1000001 tests of its loop: it returns a path or raises
    [ValueError] or [FileExistsError], and [ValueError] exactly when
    [log_path] is not a directory. *)
Theorem get_logfile_path_ends (fs : FileSystem) (datetime_string log_path : string)
    (base_filename : option string) (ending : string) :
  ((∃ p, get_logfile_path fs datetime_string log_path base_filename ending = Ok p)
   ∨ get_logfile_path fs datetime_string log_path base_filename ending
     = Raise ValueError
   ∨ get_logfile_path fs datetime_string log_path base_filename ending
     = Raise FileExistsError)
  ∧ (get_logfile_path fs datetime_string log_path base_filename ending
     = Raise ValueError
     ↔ isdir fs log_path = false).
Proof.
  destruct (get_logfile_path_outcome fs datetime_string log_path base_filename ending)
    as [[Hdir E]|[(Hdir & E & _)|(Hdir & j & _ & E & _)]]; rewrite E, Hdir.
  - split; [by right; left|done].
  - split; [by right; right|]. split; discriminate.
  - split; [left; by eexists|]. split; discriminate.
Qed.

(** The names that are tried start with the name of the day's file. *)
Lemma candidate_relative (log_path log_filename ending : string) (j : N) :
  startswith_sep log_filename = false →
  ∃ rest,
    candidate log_path log_filename ending j = log_path +:+ log_filename +:+ rest
    ∨ candidate log_path log_filename ending j
      = log_path +:+ "/" +:+ log_filename +:+ rest.
Proof.
  intros Hrel. unfold candidate.
  destruct (j =? 0)%N.
  - exists ("." +:+ ending). apply os_path_join_relative.
    rewrite startswith_sep_append. by destruct log_filename.
  - exists ("_" +:+ pretty j +:+ "." +:+ ending). apply os_path_join_relative.
    rewrite startswith_sep_append. by destruct log_filename.
Qed.

Lemma candidate_absolute (log_path log_filename ending : string) (j : N) :
  startswith_sep log_filename = true →
  ∃ rest, candidate log_path log_filename ending j = log_filename +:+ rest.
Proof.
  intros Habs. unfold candidate.
  destruct (j =? 0)%N.
  - exists ("." +:+ ending). apply os_path_join_absolute.
    rewrite startswith_sep_append. by destruct log_filename.
  - exists ("_" +:+ pretty j +:+ "." +:+ ending). apply os_path_join_absolute.
    rewrite startswith_sep_append. by destruct log_filename.
Qed.

Lemma candidate_shape (log_path log_filename ending : string) (j : N) :
  startswith_sep log_filename = false →
  candidate log_path log_filename ending j
  = log_path +:+ separator_after log_path +:+ log_filename
    +:+ (if (j =? 0)%N then "." +:+ ending else "_" +:+ pretty j +:+ "." +:+ ending).
Proof.
  intros Hrel. unfold candidate, os_path_join, separator_after.
  destruct (j =? 0)%N.
  - rewrite startswith_sep_append.
    replace (match log_filename with "" => _ | _ => startswith_sep log_filename end)
      with false by (by destruct log_filename).
    destruct log_path as [|c r]; [done|]. by destruct (endswith_sep (String c r)).
  - rewrite startswith_sep_append.
    replace (match log_filename with "" => _ | _ => startswith_sep log_filename end)
      with false by (by destruct log_filename).
    destruct log_path as [|c r]; [done|]. by destruct (endswith_sep (String c r)).
Qed.

(** X5: when the name of the day's file does not start with a
    separator, the path returned is [log_path], then one separator
    exactly when [log_path] is not empty and does not end with one,
    then the base name with its underscore and the date, then either
    the dot and the ending, or an underscore, a number from 1 to
    1000000 in decimal, the dot and the ending. *)
Theorem get_logfile_path_shape (fs : FileSystem)
    (datetime_string log_path : string) (base_filename : option string)
    (ending p : string) :
  startswith_sep (log_filename_of datetime_string base_filename) = false →
  get_logfile_path fs datetime_string log_path base_filename ending = Ok p →
  ∃ suffix,
    p = log_path +:+ separator_after log_path
        +:+ log_filename_of datetime_string base_filename +:+ suffix
    ∧ (suffix = "." +:+ ending
       ∨ ∃ j, (1 ≤ j ≤ 1000000)%N ∧ suffix = "_" +:+ pretty j +:+ "." +:+ ending).
Proof.
  intros Hrel H.
  destruct (get_logfile_path_outcome fs datetime_string log_path base_filename ending)
    as [[_ E]|[(_ & E & _)|(_ & j & Hj & E & _)]];
    rewrite E in H; [discriminate H | discriminate H |].
  injection H as <-. rewrite candidate_shape by done.
  eexists. split; [reflexivity|].
  destruct (j =? 0)%N eqn:Hz; [by left|].
  right. exists j. apply N.eqb_neq in Hz. split; [lia|done].
Qed.

Lemma get_logfile_path_shape_witness :
  startswith_sep (log_filename_of "2024-01-02" (Some "astrotux")) = false
  ∧ get_logfile_path one_log_fs "2024-01-02" "logs" (Some "astrotux") "log"
    = Ok "logs/astrotux_2024-01-02_1.log"
  ∧ ∃ suffix,
      "logs/astrotux_2024-01-02_1.log"
      = "logs" +:+ separator_after "logs"
        +:+ log_filename_of "2024-01-02" (Some "astrotux") +:+ suffix
      ∧ (suffix = "." +:+ "log"
         ∨ ∃ j, (1 ≤ j ≤ 1000000)%N ∧ suffix = "_" +:+ pretty j +:+ "." +:+ "log").
Proof.
  split; [reflexivity|]. split; [exact one_log_fs_result|].
  exact (get_logfile_path_shape one_log_fs "2024-01-02" "logs"
           (Some "astrotux") "log" _ eq_refl one_log_fs_result).
Defined.

(** Two loop bodies that agree give the same iteration. *)
Lemma N_iter_ext {A} (f g : A → A) (n : N) (x : A) :
  (∀ y, f y = g y) → N.iter n f x = N.iter n g x.
Proof.
  intros Hfg. induction n as [|n IH] using N.peano_ind; [done|].
  by rewrite !N.iter_succ, IH, Hfg.
Qed.

Lemma absolute_base_filename (datetime_string base_filename : string) :
  startswith_sep base_filename = true →
  startswith_sep (log_filename_of datetime_string (Some base_filename)) = true.
Proof.
  intros H. unfold log_filename_of.
  rewrite !startswith_sep_append. by destruct base_filename.
Qed.

(** X6: a [base_filename] that starts with a separator takes the log
    file out of [log_path]: the path returned starts with
    [base_filename], and is the same whatever directory is given. *)
Theorem get_logfile_path_absolute_base (fs : FileSystem)
    (datetime_string log_path base_filename ending : string) :
  startswith_sep base_filename = true →
  (∀ p, get_logfile_path fs datetime_string log_path (Some base_filename) ending
        = Ok p →
        ∃ rest, p = base_filename +:+ rest)
  ∧ (∀ log_path', isdir fs log_path = true → isdir fs log_path' = true →
       get_logfile_path fs datetime_string log_path (Some base_filename) ending
       = get_logfile_path fs datetime_string log_path' (Some base_filename) ending).
Proof.
  intros Habs.
  pose proof (absolute_base_filename datetime_string _ Habs) as Hname.
  split.
  - intros p H.
    destruct (get_logfile_path_outcome fs datetime_string log_path
                (Some base_filename) ending)
      as [[_ E]|[(_ & E & _)|(_ & j & _ & E & _)]];
      rewrite E in H; [discriminate H | discriminate H |].
    injection H as <-.
    destruct (candidate_absolute log_path _ ending j Hname) as [rest ->].
    unfold log_filename_of. rewrite !string_append_assoc. by eexists.
  - intros log_path' Hdir Hdir'.
    rewrite (get_logfile_path_dir _ _ _ _ _ Hdir),
            (get_logfile_path_dir _ _ _ _ _ Hdir').
    set (name := log_filename_of datetime_string (Some base_filename)) in *.
    assert (Hjoin : ∀ x, os_path_join log_path (name +:+ x)
                         = os_path_join log_path' (name +:+ x)).
    { intros x. rewrite !os_path_join_absolute; [done | |];
        rewrite startswith_sep_append; by destruct name. }
    assert (Hstart : candidate log_path name ending 0
                     = candidate log_path' name ending 0)
      by apply Hjoin.
    assert (Hbody : ∀ st, logfile_loop fs log_path name ending st
                          = logfile_loop fs log_path' name ending st).
    { intros [i path|r]; [|reflexivity]. unfold logfile_loop. by rewrite Hjoin. }
    rewrite Hstart.
    rewrite (N_iter_ext _ _ 1000001 (Searching 1 (candidate log_path' name ending 0))
               Hbody).
    reflexivity.
Qed.

Lemma get_logfile_path_absolute_base_witness :
  startswith_sep "/tmp/x" = true
  ∧ get_logfile_path one_log_fs "2024-01-02" "logs" (Some "/tmp/x") "log"
    = Ok "/tmp/x_2024-01-02.log"
  ∧ ∃ rest, "/tmp/x_2024-01-02.log" = "/tmp/x" +:+ rest.
Proof.
  assert (H : get_logfile_path one_log_fs "2024-01-02" "logs" (Some "/tmp/x") "log"
              = Ok "/tmp/x_2024-01-02.log").
  { apply (get_logfile_path_found one_log_fs "2024-01-02" "logs" (Some "/tmp/x")
             "log" 0); [reflexivity | lia | | reflexivity].
    intros j' Hj'. lia. }
  split; [reflexivity|]. split; [exact H|].
  exact (proj1 (get_logfile_path_absolute_base one_log_fs "2024-01-02" "logs"
                  "/tmp/x" "log" eq_refl) _ H).
Defined.

(** ** Logging setup *)

Lemma callHandlers_app (l : N) (hs1 hs2 : list LogHandler) (h : LogHandler)
    (r : LogRecord) :
  callHandlers {| logger_level := l; logger_handlers := hs1 ++ h :: hs2 |} r
  = ((stream <$> List.filter (handler_takes r) hs1)
     ++ (stream <$> List.filter (handler_takes r) (h :: hs2)))%list.
Proof.
  unfold callHandlers. cbn [logger_handlers].
  destruct hs1 as [|a hs1]; [reflexivity|].
  change ((a :: hs1) ++ h :: hs2)%list with (a :: (hs1 ++ h :: hs2))%list.
  cbv iota beta.
  change (a :: (hs1 ++ h :: hs2))%list with ((a :: hs1) ++ h :: hs2)%list.
  by rewrite List.filter_app, fmap_app.
Qed.

(** What the root logger writes after the console setup. *)
Lemma setup_console_logging_log (log_debug : bool) (root : Logger) (r : LogRecord) :
  Logger_log (setup_console_logging log_debug root) r
  = if (DEBUG <=? levelno r)%N
    then (taken root r ++ console_targets log_debug (levelno r))%list
    else [].
Proof.
  unfold Logger_log, setup_console_logging, Logger_addHandler, Logger_setLevel.
  cbn [logger_level logger_handlers].
  destruct (DEBUG <=? levelno r)%N eqn:Hl.
  - replace (levelno r <=? 0)%N with false
      by (symmetry; apply N.leb_gt; apply N.leb_le in Hl; unfold DEBUG in Hl; lia).
    rewrite <- app_assoc. cbn [app].
    rewrite callHandlers_app. fold (taken root r).
    f_equal. unfold console_targets, handler_takes, new_handler, setFormatter,
      setLevel, addFilter; simpl.
    rewrite !andb_true_r.
    destruct ((if log_debug then DEBUG else INFO) <=? levelno r)%N,
             (levelno r <=? WARNING)%N, (ERROR <=? levelno r)%N; reflexivity.
  - by destruct (levelno r <=? 0)%N.
Qed.

Lemma taken_setup_console_logging (log_debug : bool) (root : Logger) (r : LogRecord) :
  taken (setup_console_logging log_debug root) r
  = (taken root r ++ console_targets log_debug (levelno r))%list.
Proof.
  unfold taken, setup_console_logging, Logger_addHandler, Logger_setLevel.
  cbn [logger_level logger_handlers].
  rewrite <- app_assoc, List.filter_app, fmap_app.
  fold (taken root r). f_equal.
  unfold console_targets, handler_takes, new_handler, setFormatter,
    setLevel, addFilter; simpl.
  rewrite !andb_true_r.
  destruct ((if log_debug then DEBUG else INFO) <=? levelno r)%N,
           (levelno r <=? WARNING)%N, (ERROR <=? levelno r)%N; reflexivity.
Qed.

(** X7: after [setup_console_logging] a record is written by the
    handlers that were there before and by at most one of the two
    console handlers: on [sys.stdout] from the threshold ([DEBUG] or
    [INFO]) up to [WARNING], on [sys.stderr] from [ERROR] up, on
    neither of them between [WARNING] and [ERROR] or below the
    threshold; below [DEBUG] it is not written at all. *)
Theorem console_routing (log_debug : bool) (root : Logger) (r : LogRecord) :
  let lg := setup_console_logging log_debug root in
  let threshold := if log_debug then DEBUG else INFO in
  ((levelno r < DEBUG)%N → Logger_log lg r = [])
  ∧ ((threshold ≤ levelno r ≤ WARNING)%N →
     Logger_log lg r = (taken root r ++ [ToStdout])%list)
  ∧ ((ERROR ≤ levelno r)%N →
     Logger_log lg r = (taken root r ++ [ToStderr])%list)
  ∧ ((DEBUG ≤ levelno r < threshold ∨ WARNING < levelno r < ERROR)%N →
     Logger_log lg r = taken root r).
Proof.
  intros lg threshold. unfold lg.
  rewrite setup_console_logging_log. unfold console_targets.
  fold threshold.
  assert (Ht : (DEBUG ≤ threshold ≤ INFO)%N)
    by (unfold threshold, DEBUG, INFO; destruct log_debug; lia).
  unfold DEBUG, INFO, WARNING, ERROR in *.
  repeat split; intros H.
  - by replace (10 <=? levelno r)%N with false by (symmetry; apply N.leb_gt; lia).
  - replace (10 <=? levelno r)%N with true by (symmetry; apply N.leb_le; lia).
    replace (threshold <=? levelno r)%N with true by (symmetry; apply N.leb_le; lia).
    replace (levelno r <=? 30)%N with true by (symmetry; apply N.leb_le; lia).
    by replace (40 <=? levelno r)%N with false by (symmetry; apply N.leb_gt; lia).
  - replace (10 <=? levelno r)%N with true by (symmetry; apply N.leb_le; lia).
    replace (levelno r <=? 30)%N with false by (symmetry; apply N.leb_gt; lia).
    replace (40 <=? levelno r)%N with true by (symmetry; apply N.leb_le; lia).
    by rewrite andb_false_r.
  - replace (10 <=? levelno r)%N with true by (symmetry; apply N.leb_le; lia).
    replace (40 <=? levelno r)%N with false by (symmetry; apply N.leb_gt; lia).
    destruct H as [H|H].
    + replace (threshold <=? levelno r)%N with false
        by (symmetry; apply N.leb_gt; lia).
      by rewrite app_nil_r.
    + replace (levelno r <=? 30)%N with false by (symmetry; apply N.leb_gt; lia).
      rewrite andb_false_r. by rewrite app_nil_r.
Qed.

Lemma console_routing_witness :
  (WARNING < 35 < ERROR)%N
  ∧ Logger_log (setup_console_logging false fresh_root)
      {| levelno := 35; msg := "between warning and error" |} = []
  ∧ Logger_log (setup_console_logging false fresh_root)
      {| levelno := ERROR; msg := "failed" |} = [ToStderr].
Proof.
  split; [unfold WARNING, ERROR; lia|].
  destruct (console_routing false fresh_root
              {| levelno := 35; msg := "between warning and error" |})
    as (_ & _ & _ & Hgap).
  destruct (console_routing false fresh_root {| levelno := ERROR; msg := "failed" |})
    as (_ & _ & Herr & _).
  split.
  - apply Hgap. right. simpl. unfold WARNING, ERROR. lia.
  - apply Herr. simpl. lia.
Defined.

(** X8: [setup_console_logging] adds its two handlers each time it
    is called: after two calls every record from [INFO] to [WARNING]
    is written twice on [sys.stdout], and every record from [ERROR]
    up twice on [sys.stderr]. *)
Theorem console_setup_twice (d1 d2 : bool) (root : Logger) (r : LogRecord) :
  let lg := setup_console_logging d2 (setup_console_logging d1 root) in
  ((INFO ≤ levelno r ≤ WARNING)%N →
   Logger_log lg r = (taken root r ++ [ToStdout; ToStdout])%list)
  ∧ ((ERROR ≤ levelno r)%N →
     Logger_log lg r = (taken root r ++ [ToStderr; ToStderr])%list).
Proof.
  intros lg. unfold lg.
  rewrite setup_console_logging_log, taken_setup_console_logging.
  unfold console_targets, DEBUG, INFO, WARNING, ERROR.
  split; intros H.
  - replace (10 <=? levelno r)%N with true by (symmetry; apply N.leb_le; lia).
    replace ((if d1 then 10 else 20) <=? levelno r)%N with true
      by (symmetry; apply N.leb_le; destruct d1; lia).
    replace ((if d2 then 10 else 20) <=? levelno r)%N with true
      by (symmetry; apply N.leb_le; destruct d2; lia).
    replace (levelno r <=? 30)%N with true by (symmetry; apply N.leb_le; lia).
    replace (40 <=? levelno r)%N with false by (symmetry; apply N.leb_gt; lia).
    simpl. by rewrite <- app_assoc.
  - replace (10 <=? levelno r)%N with true by (symmetry; apply N.leb_le; lia).
    replace (levelno r <=? 30)%N with false by (symmetry; apply N.leb_gt; lia).
    replace (40 <=? levelno r)%N with true by (symmetry; apply N.leb_le; lia).
    rewrite !andb_false_r. simpl. by rewrite <- app_assoc.
Qed.

Lemma console_setup_twice_witness :
  (ERROR ≤ CRITICAL)%N
  ∧ Logger_log (setup_console_logging false (setup_console_logging true fresh_root))
      {| levelno := CRITICAL; msg := "crashed" |}
    = [ToStderr; ToStderr].
Proof.
  split; [unfold ERROR, CRITICAL; lia|].
  apply (proj2 (console_setup_twice true false fresh_root
                  {| levelno := CRITICAL; msg := "crashed" |})).
  simpl. unfold ERROR, CRITICAL. lia.
Defined.

(** The ways [setup_file_logging] can end. *)
Lemma setup_file_logging_cases (faults : FileSystemFaults) (datetime_string : string)
    (log_path : string) (log_debug : bool) (fs : FileSystem) (root : Logger) :
  (∃ e, path_exists fs log_path = false
        ∧ makedirs_error faults log_path = Some e
        ∧ setup_file_logging faults datetime_string log_path log_debug fs root
          = (Raise e, (fs, Logger_setLevel DEBUG root)))
  ∨ ((path_exists fs log_path = false → makedirs_error faults log_path = None)
     ∧ ((∃ e, get_logfile_path (prepared log_path fs) datetime_string log_path
                (Some "astrotux") "log" = Raise e
              ∧ setup_file_logging faults datetime_string log_path log_debug fs root
                = (Raise e, (prepared log_path fs, Logger_setLevel DEBUG root)))
        ∨ (∃ p e, get_logfile_path (prepared log_path fs) datetime_string log_path
                    (Some "astrotux") "log" = Ok p
                  ∧ open_error faults p = Some e
                  ∧ setup_file_logging faults datetime_string log_path log_debug
                      fs root
                    = (Raise e, (prepared log_path fs, Logger_setLevel DEBUG root)))
        ∨ (∃ p, get_logfile_path (prepared log_path fs) datetime_string log_path
                  (Some "astrotux") "log" = Ok p
                ∧ open_error faults p = None
                ∧ setup_file_logging faults datetime_string log_path log_debug
                    fs root
                  = (Ok (file_handler log_debug p),
                     (create_file p (prepared log_path fs),
                      Logger_addHandler (file_handler log_debug p)
                        (Logger_setLevel DEBUG root)))))).
Proof.
  assert (Hends : ∀ fs',
    (∃ p, get_logfile_path fs' datetime_string log_path (Some "astrotux") "log"
          = Ok p)
    ∨ (∃ e, get_logfile_path fs' datetime_string log_path (Some "astrotux") "log"
            = Raise e)).
  { intros fs'.
    destruct (get_logfile_path_outcome fs' datetime_string log_path
                (Some "astrotux") "log")
      as [[_ E]|[(_ & E & _)|(_ & j & _ & E & _)]]; rewrite E; eauto. }
  unfold setup_file_logging, prepared.
  destruct (path_exists fs log_path) eqn:Hex; cbn [negb].
  - right. split; [discriminate|].
    destruct (Hends fs) as [[p E]|[e E]]; rewrite E.
    + destruct (open_error faults p) as [e|] eqn:Ho.
      * right; left. exists p, e. by rewrite Ho.
      * right; right. exists p. by rewrite Ho.
    + left. by eexists.
  - destruct (makedirs_error faults log_path) as [e|] eqn:Hm.
    + left. by exists e.
    + right. split; [done|].
      destruct (Hends (makedirs log_path fs)) as [[p E]|[e E]]; rewrite E.
      * destruct (open_error faults p) as [e|] eqn:Ho.
        -- right; left. exists p, e. by rewrite Ho.
        -- right; right. exists p. by rewrite Ho.
      * left. by eexists.
Qed.

Lemma setup_file_logging_ok (faults : FileSystemFaults) (datetime_string : string)
    (log_path : string) (log_debug : bool) (fs : FileSystem) (root : Logger)
    (p : string) :
  path_exists fs log_path = true →
  get_logfile_path fs datetime_string log_path (Some "astrotux") "log" = Ok p →
  open_error faults p = None →
  setup_file_logging faults datetime_string log_path log_debug fs root
  = (Ok (file_handler log_debug p),
     (create_file p fs,
      Logger_addHandler (file_handler log_debug p) (Logger_setLevel DEBUG root))).
Proof.
  intros Hex Hp Ho. unfold setup_file_logging.
  rewrite Hex. cbn [negb]. rewrite Hp, Ho. reflexivity.
Qed.

Lemma prepared_exists (log_path : string) (fs : FileSystem) :
  path_exists (prepared log_path fs) log_path = true.
Proof.
  unfold prepared. destruct (path_exists fs log_path) eqn:E; [done|].
  simpl. by rewrite String.eqb_refl.
Qed.

Lemma prepared_fresh (log_path p : string) (fs : FileSystem) :
  path_exists (prepared log_path fs) p = false → path_exists fs p = false.
Proof.
  unfold prepared. destruct (path_exists fs log_path); [done|].
  simpl. by destruct (String.eqb p log_path).
Qed.

(** X9: the handler that [setup_file_logging] returns writes to a
    file that did not exist before the call and exists after it, in
    the directory [log_path], which exists after the call, with a
    name that starts with [astrotux_] and the date; it is the last
    handler of the root logger, whose level is [DEBUG], and every
    record from the threshold up is written to the file. *)
Theorem setup_file_logging_new_file (faults : FileSystemFaults)
    (datetime_string log_path : string) (log_debug : bool)
    (fs fs' : FileSystem) (root root' : Logger) (h : LogHandler) :
  setup_file_logging faults datetime_string log_path log_debug fs root
  = (Ok h, (fs', root')) →
  ∃ p,
    h = file_handler log_debug p
    ∧ path_exists fs p = false
    ∧ path_exists fs' p = true
    ∧ isdir fs' log_path = true
    ∧ (∃ rest, p = log_path +:+ "astrotux_" +:+ datetime_string +:+ rest
               ∨ p = log_path +:+ "/" +:+ "astrotux_" +:+ datetime_string +:+ rest)
    ∧ root' = Logger_addHandler h (Logger_setLevel DEBUG root)
    ∧ ∀ r, ((if log_debug then DEBUG else INFO) ≤ levelno r)%N →
           In (ToFile p) (Logger_log root' r).
Proof.
  intros H.
  destruct (setup_file_logging_cases faults datetime_string log_path log_debug
              fs root)
    as [(e & _ & _ & E)|[_ [(e & _ & E)|[(p & e & _ & _ & E)|(p & Hp & _ & E)]]]];
    rewrite E in H; try discriminate H.
  injection H as <- <- <-. exists p.
  destruct (get_logfile_path_outcome (prepared log_path fs) datetime_string
              log_path (Some "astrotux") "log")
    as [[_ E']|[(_ & E' & _)|(Hdir & j & _ & E' & Hfree & _)]];
    rewrite E' in Hp; try discriminate Hp.
  injection Hp as <-.
  split; [done|]. split; [by apply (prepared_fresh log_path)|].
  split; [simpl; by rewrite String.eqb_refl|]. split; [exact Hdir|].
  split.
  { destruct (candidate_relative log_path
                (log_filename_of datetime_string (Some "astrotux")) "log" j eq_refl)
      as [rest Hrest].
    exists rest. unfold log_filename_of in Hrest.
    rewrite !string_append_assoc in Hrest. exact Hrest. }
  split; [done|].
  intros r Hr. unfold Logger_log, Logger_addHandler, Logger_setLevel.
  cbn [logger_level logger_handlers].
  assert (Hl : (DEBUG ≤ levelno r)%N)
    by (unfold DEBUG, INFO in *; destruct log_debug; lia).
  replace (levelno r <=? 0)%N with false
    by (symmetry; apply N.leb_gt; unfold DEBUG in Hl; lia).
  replace (DEBUG <=? levelno r)%N with true by (symmetry; by apply N.leb_le).
  rewrite callHandlers_app. apply in_or_app. right.
  unfold handler_takes, file_handler; simpl.
  replace ((if log_debug then DEBUG else INFO) <=? levelno r)%N with true
    by (symmetry; by apply N.leb_le).
  by left.
Qed.

Lemma setup_file_logging_new_file_witness :
  setup_file_logging no_faults "2024-01-02" "logs" false one_log_fs fresh_root
  = (Ok (file_handler false "logs/astrotux_2024-01-02_1.log"),
     (create_file "logs/astrotux_2024-01-02_1.log" one_log_fs,
      Logger_addHandler (file_handler false "logs/astrotux_2024-01-02_1.log")
        (Logger_setLevel DEBUG fresh_root)))
  ∧ ∃ p,
      file_handler false "logs/astrotux_2024-01-02_1.log" = file_handler false p
      ∧ path_exists one_log_fs p = false.
Proof.
  assert (H : setup_file_logging no_faults "2024-01-02" "logs" false one_log_fs
                fresh_root
              = (Ok (file_handler false "logs/astrotux_2024-01-02_1.log"),
                 (create_file "logs/astrotux_2024-01-02_1.log" one_log_fs,
                  Logger_addHandler
                    (file_handler false "logs/astrotux_2024-01-02_1.log")
                    (Logger_setLevel DEBUG fresh_root)))).
  { apply setup_file_logging_ok; [reflexivity | exact one_log_fs_result | reflexivity]. }
  split; [exact H|].
  destruct (setup_file_logging_new_file _ _ _ _ _ _ _ _ _ H)
    as (p & Hh & Hnew & _).
  exists p. by split.
Defined.

(** X10: two calls of [setup_file_logging] for the same directory on
    the same day that both return give handlers on two different
    files, both registered with the root logger: a later call never
    takes over the log file of an earlier one. *)
Theorem setup_file_logging_twice (faults : FileSystemFaults)
    (datetime_string log_path : string) (d1 d2 : bool)
    (fs fs1 fs2 : FileSystem) (root root1 root2 : Logger) (h1 h2 : LogHandler) :
  setup_file_logging faults datetime_string log_path d1 fs root
  = (Ok h1, (fs1, root1)) →
  setup_file_logging faults datetime_string log_path d2 fs1 root1
  = (Ok h2, (fs2, root2)) →
  stream h1 ≠ stream h2
  ∧ logger_handlers root2 = (logger_handlers root ++ [h1; h2])%list.
Proof.
  intros H1 H2.
  destruct (setup_file_logging_cases faults datetime_string log_path d1 fs root)
    as [(e & _ & _ & E)|[_ [(e & _ & E)|[(p & e & _ & _ & E)|(p1 & Hp1 & _ & E)]]]];
    rewrite E in H1; try discriminate H1.
  injection H1 as <- <- <-. clear E.
  destruct (setup_file_logging_cases faults datetime_string log_path d2
              (create_file p1 (prepared log_path fs))
              (Logger_addHandler (file_handler d1 p1) (Logger_setLevel DEBUG root)))
    as [(e & _ & _ & E)|[_ [(e & _ & E)|[(p & e & _ & _ & E)|(p2 & Hp2 & _ & E)]]]];
    rewrite E in H2; try discriminate H2.
  injection H2 as <- <- <-. clear E.
  split.
  - simpl. intros [= ->].
    destruct (get_logfile_path_outcome
                (prepared log_path (create_file p2 (prepared log_path fs)))
                datetime_string log_path (Some "astrotux") "log")
      as [[_ E']|[(_ & E' & _)|(_ & j & _ & E' & Hfree & _)]];
      rewrite E' in Hp2; try discriminate Hp2.
    injection Hp2 as Hp2. rewrite Hp2 in Hfree.
    apply prepared_fresh in Hfree. simpl in Hfree.
    by rewrite String.eqb_refl in Hfree.
  - simpl. by rewrite <- app_assoc.
Qed.

Lemma second_log_of_the_day :
  get_logfile_path (create_file "logs/astrotux_2024-01-02_1.log" one_log_fs)
    "2024-01-02" "logs" (Some "astrotux") "log"
  = Ok "logs/astrotux_2024-01-02_2.log".
Proof.
  apply (get_logfile_path_found
           (create_file "logs/astrotux_2024-01-02_1.log" one_log_fs)
           "2024-01-02" "logs" (Some "astrotux") "log" 2);
    [reflexivity | lia | | reflexivity].
  intros j' Hj'. assert (j' = 0 ∨ j' = 1)%N as [-> | ->] by lia; reflexivity.
Defined.

Lemma setup_file_logging_twice_witness :
  ∃ h1 fs1 root1 h2 fs2 root2,
    setup_file_logging no_faults "2024-01-02" "logs" false one_log_fs fresh_root
    = (Ok h1, (fs1, root1))
    ∧ setup_file_logging no_faults "2024-01-02" "logs" true fs1 root1
      = (Ok h2, (fs2, root2))
    ∧ stream h1 = ToFile "logs/astrotux_2024-01-02_1.log"
    ∧ stream h2 = ToFile "logs/astrotux_2024-01-02_2.log"
    ∧ stream h1 ≠ stream h2.
Proof.
  do 6 eexists.
  assert (H1 : setup_file_logging no_faults "2024-01-02" "logs" false one_log_fs
                 fresh_root
               = (Ok (file_handler false "logs/astrotux_2024-01-02_1.log"),
                  (create_file "logs/astrotux_2024-01-02_1.log" one_log_fs,
                   Logger_addHandler
                     (file_handler false "logs/astrotux_2024-01-02_1.log")
                     (Logger_setLevel DEBUG fresh_root)))).
  { apply setup_file_logging_ok; [reflexivity | exact one_log_fs_result | reflexivity]. }
  assert (H2 : setup_file_logging no_faults "2024-01-02" "logs" true
                 (create_file "logs/astrotux_2024-01-02_1.log" one_log_fs)
                 (Logger_addHandler
                    (file_handler false "logs/astrotux_2024-01-02_1.log")
                    (Logger_setLevel DEBUG fresh_root))
               = (Ok (file_handler true "logs/astrotux_2024-01-02_2.log"),
                  (create_file "logs/astrotux_2024-01-02_2.log"
                     (create_file "logs/astrotux_2024-01-02_1.log" one_log_fs),
                   Logger_addHandler
                     (file_handler true "logs/astrotux_2024-01-02_2.log")
                     (Logger_setLevel DEBUG
                        (Logger_addHandler
                           (file_handler false "logs/astrotux_2024-01-02_1.log")
                           (Logger_setLevel DEBUG fresh_root)))))).
  { apply setup_file_logging_ok;
      [reflexivity | exact second_log_of_the_day | reflexivity]. }
  split; [exact H1|]. split; [exact H2|].
  split; [reflexivity|]. split; [reflexivity|].
  exact (proj1 (setup_file_logging_twice _ _ _ _ _ _ _ _ _ _ _ _ _ H1 H2)).
Defined.

(** X11: when [log_path] exists and is not a directory,
    [setup_file_logging] raises [ValueError]: nothing is created and
    no handler is added, but the level of the root logger has been
    set to [DEBUG]. *)
Theorem setup_file_logging_not_a_directory (faults : FileSystemFaults)
    (datetime_string log_path : string) (log_debug : bool)
    (fs : FileSystem) (root : Logger) :
  path_exists fs log_path = true →
  isdir fs log_path = false →
  setup_file_logging faults datetime_string log_path log_debug fs root
  = (Raise ValueError, (fs, Logger_setLevel DEBUG root)).
Proof.
  intros Hex Hdir. unfold setup_file_logging. rewrite Hex. cbn [negb].
  by rewrite (get_logfile_path_not_dir _ _ _ _ _ Hdir).
Qed.

Lemma setup_file_logging_not_a_directory_witness :
  path_exists logs_is_a_file_fs "logs" = true
  ∧ isdir logs_is_a_file_fs "logs" = false
  ∧ setup_file_logging no_faults "2024-01-02" "logs" false logs_is_a_file_fs
      fresh_root
    = (Raise ValueError, (logs_is_a_file_fs, Logger_setLevel DEBUG fresh_root)).
Proof.
  split; [reflexivity|]. split; [reflexivity|].
  exact (setup_file_logging_not_a_directory no_faults "2024-01-02" "logs" false
           logs_is_a_file_fs fresh_root eq_refl eq_refl).
Defined.

(** ** [KeyboardThread.run] *)

Lemma module_globals_active : Keyboard.module_globals !! "active" = None.
Proof. vm_compute. reflexivity. Qed.

(** X12: in the module as it is written no global is named
    [active], so [run] raises [NameError] at its first test: the
    thread dies without having read a line or called the callback,
    whatever the attribute [active] and the callback are. *)
Theorem keyboard_thread_dies (n : nat) (self : Keyboard.KeyboardThread)
    (builtins : gmap string Keyboard.PyValue) (stdin : list string) :
  builtins !! "active" = None →
  Keyboard.run (S n) self Keyboard.module_globals builtins stdin
  = ([], Keyboard.Died Keyboard.NameError).
Proof.
  intros Hb. cbn [Keyboard.run]. unfold Keyboard.load_global.
  rewrite module_globals_active, Hb. reflexivity.
Qed.

Lemma keyboard_thread_dies_witness :
  ({["input" := Keyboard.PyObject "input"]} : gmap string Keyboard.PyValue)
    !! "active" = None
  ∧ Keyboard.run 3
      {| Keyboard.callback := Some (λ _, None); Keyboard.active := true |}
      Keyboard.module_globals {["input" := Keyboard.PyObject "input"]}
      ["stop"; "help"]
    = ([], Keyboard.Died Keyboard.NameError).
Proof.
  split; [reflexivity|].
  exact (keyboard_thread_dies 2
           {| Keyboard.callback := Some (λ _, None); Keyboard.active := true |}
           {["input" := Keyboard.PyObject "input"]} ["stop"; "help"] eq_refl).
Defined.

(** ** The wake-up flag *)

(** X13: no wake-up is lost.  Whenever the worker is inside
    [wait] and the queue is not empty, the flag is set, so that
    [wait] returns at once, or a producer has put its item and is
    about to set the flag. *)
Theorem no_lost_wakeup (callback : Sink) (w : Store) (tr : list Label) (s : System) :
  steps callback (initial w) tr s →
  worker s = AtWait →
  event_queue (thread s) ≠ [] →
  wakeup_event (thread s) = true ∨ 0 < setters s.
Proof.
  intros Hsteps.
  assert (H : worker s = AtWait →
              event_queue (thread s) = [] ∨ wakeup_event (thread s) = true
              ∨ 0 < setters s).
  { remember (initial w) as s0 eqn:Hs0.
    induction Hsteps as [s|s tr s' l s'' _ IH Hl]; subst.
    - discriminate.
    - specialize (IH eq_refl).
      destruct Hl as [s' event|s' n Hn|s' l s'' Hw]; simpl.
      + intros _. right; right. lia.
      + intros _. right; by left.
      + unfold worker_step in Hw.
        destruct s' as [[q wake] pc ns w']; simpl in *.
        destruct pc as [| |e|e| | |e]; simpl in *.
        * destruct q; simplify_eq; simpl; [by left | discriminate].
        * destruct q; simplify_eq; simpl; discriminate.
        * simplify_eq; simpl; discriminate.
        * destruct (callback e.1 e.2 w') as [[[]| |] w'']; simplify_eq; simpl;
            discriminate.
        * simplify_eq; simpl; discriminate.
        * simplify_eq; simpl; discriminate.
        * discriminate. }
  intros Hpc Hq. destruct (H Hpc) as [Hq'|H']; [by destruct Hq|exact H'].
Qed.

Lemma no_lost_wakeup_witness :
  steps failing_sink (initial empty_store) [LEmpty true; LPut started; LSet]
    waiting_system
  ∧ worker waiting_system = AtWait
  ∧ event_queue (thread waiting_system) ≠ []
  ∧ (wakeup_event (thread waiting_system) = true ∨ 0 < setters waiting_system).
Proof.
  assert (H : steps failing_sink (initial empty_store)
                [LEmpty true; LPut started; LSet] waiting_system).
  { eapply steps_cons; [apply step_worker; reflexivity|].
    eapply steps_cons; [apply step_put|].
    eapply steps_cons; [eapply step_set; reflexivity|].
    apply steps_nil. }
  assert (Hq : event_queue (thread waiting_system) ≠ []) by discriminate.
  split; [exact H|]. split; [reflexivity|]. split; [exact Hq|].
  exact (no_lost_wakeup failing_sink empty_store _ _ H eq_refl Hq).
Defined.

(** ** More on [send_event] *)

(** X14: a parameter named [str] makes [send_event] fail for every
    whitelisted event type that has a template: the call of
    [safeformat] raises [TypeError], the sink is not invoked and
    nothing changes. *)
Theorem send_event_str_parameter (h : NotificationHandler) (k : EventType)
    (params : gmap string string) (m : Machine) (template v : string) :
  k ∈ get_set (store m) (whitelist h) →
  get_dict (store m) (formats h) !! k = Some template →
  params !! "str" = Some v →
  NotificationHandler_send_event h k params m = (Raise TypeError, m).
Proof.
  intros Hk Hf Hstr.
  unfold NotificationHandler_send_event, bind_keywords.
  destruct (params !! "self"), (params !! "event_type"); try done.
  unfold send_event_body, mbind, M_bind, get_store.
  rewrite decide_True by done. rewrite Hf. unfold lift, safeformat.
  rewrite lookup_insert_ne by done. by rewrite Hstr.
Qed.

Lemma send_event_str_parameter_witness :
  MESSAGE ∈ get_set module_store (whitelist box)
  ∧ get_dict module_store (formats box) !! MESSAGE = Some "[{name}] {message}"
  ∧ ({["str" := "hello"]} : gmap string string) !! "str" = Some "hello"
  ∧ NotificationHandler_send_event box MESSAGE {["str" := "hello"]} module_machine
    = (Raise TypeError, module_machine).
Proof.
  assert (H : MESSAGE ∈ get_set module_store (whitelist box)).
  { apply (bool_decide_unpack (MESSAGE ∈ get_set module_store (whitelist box))).
    vm_compute. exact I. }
  assert (Hf : get_dict module_store (formats box) !! MESSAGE
               = Some "[{name}] {message}") by reflexivity.
  assert (Hs : ({["str" := "hello"]} : gmap string string) !! "str" = Some "hello")
    by reflexivity.
  split; [exact H|]. split; [exact Hf|]. split; [exact Hs|].
  exact (send_event_str_parameter box MESSAGE {["str" := "hello"]} module_machine
           _ _ H Hf Hs).
Defined.

Lemma default_formats_lookup (k : EventType) :
  (list_to_map DEFAULT_EVENT_FORMATS_items : gmap EventType string) !! k
  = Some (render (default_pieces k)).
Proof. destruct k; reflexivity. Qed.

Lemma default_pieces_plain (k : EventType) :
  forallb plain_piece (default_pieces k) = true.
Proof. destruct k; reflexivity. Qed.

(** X15: with the default whitelist and the default formats as the
    module builds them, [send_event] succeeds for every event type
    and all parameters without the keys [str], [self] and
    [event_type]: it invokes the sink
    once, with the default template in which [{name}] is the name of
    the handler, every other placeholder that has a parameter is
    replaced, and the others stay as they are. *)
Theorem send_event_with_defaults (h : NotificationHandler) (k : EventType)
    (params : gmap string string) (m : Machine) :
  get_set (store m) (whitelist h) = list_to_set EventType_members →
  get_dict (store m) (formats h) = list_to_map DEFAULT_EVENT_FORMATS_items →
  params !! "str" = None →
  params !! "self" = None →
  params !! "event_type" = None →
  let message := expected (<["name" := name h]> params) (default_pieces k) in
  NotificationHandler_send_event h k params m
  = ((_send_message h k message (store m)).1,
     {| store := (_send_message h k message (store m)).2;
        trace := trace m ++ [CallSendMessage h k message] |}).
Proof.
  intros Hwl Hfm Hstr Hself Hev message.
  apply (send_event_formats h k params m (render (default_pieces k)));
    [exact Hself | exact Hev | | |].
  - rewrite Hwl. apply elem_of_list_to_set, list_elem_of_In.
    destruct k; simpl; tauto.
  - rewrite Hfm. apply default_formats_lookup.
  - apply safeformat_render; [apply default_pieces_plain|].
    by rewrite lookup_insert_ne.
Qed.

Lemma send_event_with_defaults_witness :
  get_set module_store (whitelist box) = list_to_set EventType_members
  ∧ get_dict module_store (formats box) = list_to_map DEFAULT_EVENT_FORMATS_items
  ∧ ({["player" := "Ann"]} : gmap string string) !! "str" = None
  ∧ NotificationHandler_send_event box PLAYER_LEAVE {["player" := "Ann"]}
      module_machine
    = (Ok tt,
       {| store := print "[Box] Player 'Ann' left the game" module_store;
          trace := [CallSendMessage box PLAYER_LEAVE
                      "[Box] Player 'Ann' left the game"] |}).
Proof.
  destruct (default_whitelist_contents empty_store) as [Hwl _].
  pose proof (default_formats_contents empty_store) as Hfm.
  split; [exact Hwl|]. split; [exact Hfm|]. split; [reflexivity|].
  exact (send_event_with_defaults box PLAYER_LEAVE {["player" := "Ann"]}
           module_machine Hwl Hfm eq_refl eq_refl eq_refl).
Defined.

(** ** The sink of a queued handler *)

(** What the sink of a queued handler does to the store. *)
Lemma queued_sink_effect (t : loc) (th : NotificationThread) (k : EventType)
    (message : string) (st : Store) :
  thread_objs st !! t = Some th →
  let st' := (QueuedNotificationHandler__send_message t k message st).2 in
  (QueuedNotificationHandler__send_message t k message st).1 = Ok tt
  ∧ thread_objs st' !! t
    = Some {| event_queue := event_queue th ++ [(k, message)];
              wakeup_event := true |}
  ∧ (∀ t', t' ≠ t → thread_objs st' !! t' = thread_objs st !! t')
  ∧ stdout st' = stdout st
  ∧ set_objs st' = set_objs st
  ∧ dict_objs st' = dict_objs st.
Proof.
  intros Ht st'. unfold st', QueuedNotificationHandler__send_message; simpl.
  split; [done|]. split; [by rewrite lookup_alter_eq, Ht|].
  split; [intros t' Hne; by rewrite lookup_alter_ne|done].
Qed.

(** X16: [send_event] on a queued handler does not deliver: for a
    whitelisted event type whose template formats, and parameters
    that can be bound, it returns after
    putting the event type and the message at the end of the queue
    of its own thread and setting the wake-up flag; nothing is
    printed, and no other queue, set or dict is touched. *)
Theorem queued_send_event_enqueues (h : NotificationHandler) (t : loc)
    (th : NotificationThread) (k : EventType) (params : gmap string string)
    (m : Machine) (template message : string) :
  _send_message h = QueuedNotificationHandler__send_message t →
  thread_objs (store m) !! t = Some th →
  params !! "self" = None →
  params !! "event_type" = None →
  k ∈ get_set (store m) (whitelist h) →
  get_dict (store m) (formats h) !! k = Some template →
  safeformat template (<["name" := name h]> params) = Ok message →
  ∃ m',
    NotificationHandler_send_event h k params m = (Ok tt, m')
    ∧ thread_objs (store m') !! t
      = Some {| event_queue := event_queue th ++ [(k, message)];
                wakeup_event := true |}
    ∧ (∀ t', t' ≠ t → thread_objs (store m') !! t' = thread_objs (store m) !! t')
    ∧ stdout (store m') = stdout (store m)
    ∧ set_objs (store m') = set_objs (store m)
    ∧ dict_objs (store m') = dict_objs (store m).
Proof.
  intros Hsink Ht Hself Hev Hk Hf Hm.
  rewrite (send_event_formats h k params m template message Hself Hev Hk Hf Hm),
    Hsink.
  destruct (queued_sink_effect t th k message (store m) Ht)
    as (Hr & Hq & Hother & Hout & Hsets & Hdicts).
  eexists. split; [by rewrite Hr|]. simpl. by repeat split.
Qed.

Lemma queued_send_event_enqueues_witness :
  ∃ m',
    NotificationHandler_send_event queued_box START ∅
      {| store := queued_box_store; trace := [] |}
    = (Ok tt, m')
    ∧ thread_objs (store m') !! 3
      = Some {| event_queue := [(START, "[Box] Server started!")];
                wakeup_event := true |}
    ∧ stdout (store m') = [].
Proof.
  assert (Hs : _send_message queued_box = QueuedNotificationHandler__send_message 3)
    by reflexivity.
  assert (Ht : thread_objs queued_box_store !! 3
               = Some {| event_queue := []; wakeup_event := false |})
    by reflexivity.
  assert (Hk : START ∈ get_set queued_box_store (whitelist queued_box)).
  { apply (bool_decide_unpack (START ∈ get_set queued_box_store (whitelist queued_box))).
    vm_compute. exact I. }
  assert (Hf : get_dict queued_box_store (formats queued_box) !! START
               = Some "[{name}] Server started!") by reflexivity.
  assert (Hm : safeformat "[{name}] Server started!" (<["name" := name queued_box]> ∅)
               = Ok "[Box] Server started!") by reflexivity.
  destruct (queued_send_event_enqueues queued_box 3 _ START ∅
              {| store := queued_box_store; trace := [] |} _ _ Hs Ht
              (lookup_empty _) (lookup_empty _) Hk Hf Hm)
    as (m' & Hrun & Hq & _ & Hout & _).
  exists m'. split; [exact Hrun|]. split; [exact Hq|exact Hout].
Defined.

(** X17: every [QueuedNotificationHandler] gets a thread object of
    its own, with an empty queue and a cleared flag: two handlers
    built one after the other have different threads, and what one
    of them enqueues does not show in the queue of the other. *)
Theorem queued_handlers_have_own_queues (g : Globals) (n1 n2 : option string)
    (wl1 wl2 fm1 fm2 : option loc) (st : Store) (k : EventType) (message : string) :
  let q1 := QueuedNotificationHandler__init__ g n1 wl1 fm1 st in
  let q2 := QueuedNotificationHandler__init__ g n2 wl2 fm2 q1.2 in
  ∃ t1 t2,
    t1 ≠ t2
    ∧ _send_message q1.1 = QueuedNotificationHandler__send_message t1
    ∧ _send_message q2.1 = QueuedNotificationHandler__send_message t2
    ∧ thread_objs q2.2 !! t1 = Some {| event_queue := []; wakeup_event := false |}
    ∧ thread_objs q2.2 !! t2 = Some {| event_queue := []; wakeup_event := false |}
    ∧ thread_objs (_send_message q1.1 k message q2.2).2 !! t1
      = Some {| event_queue := [(k, message)]; wakeup_event := true |}
    ∧ thread_objs (_send_message q1.1 k message q2.2).2 !! t2
      = Some {| event_queue := []; wakeup_event := false |}.
Proof.
  intros q1 q2. exists (next_loc st), (S (next_loc st)).
  assert (H1 : thread_objs q2.2 !! next_loc st
               = Some {| event_queue := []; wakeup_event := false |}).
  { simpl. rewrite lookup_insert_ne by lia. apply lookup_insert_eq. }
  assert (H2 : thread_objs q2.2 !! S (next_loc st)
               = Some {| event_queue := []; wakeup_event := false |}).
  { simpl. apply lookup_insert_eq. }
  split; [lia|]. split; [done|]. split; [done|].
  split; [exact H1|]. split; [exact H2|].
  destruct (queued_sink_effect (next_loc st) _ k message q2.2 H1)
    as (_ & Hq & Hother & _).
  split; [exact Hq|]. rewrite <- H2. apply Hother. lia.
Qed.

(** ** Templates that [safeformat] rejects *)

Lemma outcome_map_append (a b : string) (o : outcome string) :
  outcome_map (String.append a) (outcome_map (String.append b) o)
  = outcome_map (String.append (a +:+ b)) o.
Proof. destruct o; simpl; [|done..]. by rewrite string_append_assoc. Qed.

Lemma SafeDict_getitem_ok (kwargs : gmap string string) (key : string) :
  SafeDict__getitem__ kwargs key
  = Ok (default ("{" +:+ key +:+ "}") (kwargs !! key)).
Proof. unfold SafeDict__getitem__. by destruct (kwargs !! key). Qed.

(** A template that starts with plain pieces: the pieces are
    formatted, then what follows them. *)
Lemma safeformat_render_app (kwargs : gmap string string) (pieces : list Piece)
    (rest : string) :
  forallb plain_piece pieces = true →
  kwargs !! "str" = None →
  safeformat (render pieces +:+ rest) kwargs
  = outcome_map (String.append (expected kwargs pieces))
      (Format.build_string (SafeDict__getitem__ kwargs) Format.InLiteral rest).
Proof.
  intros Hp Hstr. unfold safeformat, Format.format_map. rewrite Hstr. clear Hstr.
  induction pieces as [|p pieces IH].
  - rewrite string_append_nil_l. unfold expected; simpl.
    by destruct (Format.build_string _ _ rest).
  - simpl in Hp. apply andb_true_iff in Hp as [Hp Hps]. specialize (IH Hps).
    change (render (p :: pieces)) with (render_piece p +:+ render pieces).
    change (expected kwargs (p :: pieces))
      with (substitute kwargs p +:+ expected kwargs pieces).
    rewrite string_append_assoc.
    destruct p as [s|key| |]; simpl in Hp; unfold render_piece, substitute.
    + by rewrite (build_text _ _ _ Hp), IH, outcome_map_append.
    + rewrite !string_append_assoc, (build_field _ _ _ Hp), IH.
      rewrite SafeDict_getitem_ok. cbn [outcome_bind].
      apply outcome_map_append.
    + rewrite build_open_brace, IH. by destruct (Format.build_string _ _ rest).
    + rewrite build_close_brace, IH. by destruct (Format.build_string _ _ rest).
Qed.

Lemma digit_not_markup (c : ascii) : Format.is_digit c = true → is_markup c = false.
Proof.
  destruct c as [[] [] [] [] [] [] [] []]; try discriminate; reflexivity.
Qed.

Lemma digits_not_markup (s : string) :
  string_forall Format.is_digit s = true →
  string_forall (λ c, negb (is_markup c)) s = true.
Proof.
  induction s as [|c s IH]; [done|]. simpl.
  intros [Hc Hs]%andb_true_iff. by rewrite (digit_not_markup c Hc), IH.
Qed.

Lemma get_integer_from_digits (s : string) (acc : N) :
  string_forall Format.is_digit s = true →
  Format.get_integer_from acc s ≠ Format.NotInteger.
Proof.
  revert acc. induction s as [|c s IH]; intros acc; [done|]. simpl.
  intros [Hc Hs]%andb_true_iff. rewrite Hc.
  destruct (_ <? acc)%N; [done|]. by apply IH.
Qed.

(** A field whose name is empty or a number is refused. *)
Lemma build_positional_field (getitem : string → outcome string)
    (digits rest : string) :
  string_forall Format.is_digit digits = true →
  Format.build_string getitem Format.InLiteral
    ("{" +:+ digits +:+ "}" +:+ rest)
  = Raise ValueError.
Proof.
  intros Hd. destruct digits as [|c digits]; [reflexivity|].
  pose proof (digits_not_markup _ Hd) as Hm.
  assert (Hc : (c =? "{")%char = false).
  { simpl in Hm. apply andb_true_iff in Hm as [Hm _].
    unfold is_markup, is_brace in Hm. apply negb_true_iff in Hm.
    repeat apply orb_false_iff in Hm as [Hm ?]. exact Hm. }
  change ("{" +:+ String c digits +:+ "}" +:+ rest)
    with (String "{" (String c (digits +:+ String "}" rest))).
  rewrite (build_field_start _ _ _ Hc).
  rewrite <- (string_append_cons c digits (String "}" rest)).
  rewrite (build_field_name getitem (String c digits) "" rest Hm).
  rewrite string_append_nil_l.
  unfold Format.output_markup, Format.get_field_object.
  rewrite (field_name_split_plain _ Hm).
  pose proof (get_integer_from_digits (String c digits) 0 Hd) as Hi.
  unfold Format.get_integer.
  by destruct (Format.get_integer_from 0 (String c digits)).
Qed.

(** X18: a placeholder without a name or with a number for a name,
    as [{}] or [{0}], makes [safeformat] raise [ValueError],
    wherever it stands after plain pieces and whatever follows it:
    [str.format_map] has no positional arguments. *)
Theorem safeformat_positional_field (kwargs : gmap string string)
    (pieces : list Piece) (digits rest : string) :
  forallb plain_piece pieces = true →
  kwargs !! "str" = None →
  string_forall Format.is_digit digits = true →
  safeformat (render pieces +:+ "{" +:+ digits +:+ "}" +:+ rest) kwargs
  = Raise ValueError.
Proof.
  intros Hp Hstr Hd.
  by rewrite (safeformat_render_app _ _ _ Hp Hstr), (build_positional_field _ _ _ Hd).
Qed.

Lemma safeformat_positional_field_witness :
  forallb plain_piece [Text "Player "] = true
  ∧ (∅ : gmap string string) !! "str" = None
  ∧ string_forall Format.is_digit "0" = true
  ∧ safeformat "Player {0} joined" ∅ = Raise ValueError.
Proof.
  split; [reflexivity|]. split; [reflexivity|]. split; [reflexivity|].
  exact (safeformat_positional_field ∅ [Text "Player "] "0" " joined"
           eq_refl eq_refl eq_refl).
Defined.

(** X19: a single brace makes [safeformat] raise [ValueError]: an
    opening brace at the end of the template, or a closing brace
    that is not followed by another one, after plain pieces. *)
Theorem safeformat_single_brace (kwargs : gmap string string)
    (pieces : list Piece) (rest : string) :
  forallb plain_piece pieces = true →
  kwargs !! "str" = None →
  (∀ rest', rest ≠ String "}" rest') →
  safeformat (render pieces +:+ "{") kwargs = Raise ValueError
  ∧ safeformat (render pieces +:+ "}" +:+ rest) kwargs = Raise ValueError.
Proof.
  intros Hp Hstr Hrest.
  rewrite !(safeformat_render_app _ _ _ Hp Hstr). split; [reflexivity|].
  destruct rest as [|d rest']; [reflexivity|].
  change ("}" +:+ String d rest') with (String "}" (String d rest')).
  cbn [Format.build_string].
  replace (d =? "}")%char with false; [reflexivity|].
  symmetry. apply Ascii.eqb_neq. intros ->. by destruct (Hrest rest').
Qed.

Lemma safeformat_single_brace_witness :
  forallb plain_piece [Text "["; Field "name"; Text "] done"] = true
  ∧ (∅ : gmap string string) !! "str" = None
  ∧ (∀ rest', " again" ≠ String "}" rest')
  ∧ safeformat "[{name}] done{" ∅ = Raise ValueError
  ∧ safeformat "[{name}] done} again" ∅ = Raise ValueError.
Proof.
  assert (H : ∀ rest', " again" ≠ String "}" rest') by discriminate.
  split; [reflexivity|]. split; [reflexivity|]. split; [exact H|].
  exact (safeformat_single_brace ∅ [Text "["; Field "name"; Text "] done"]
           " again" eq_refl eq_refl H).
Defined.
